(** * s32imdbpy: the IMDb s3 dataset importer

    A shallow embedding of [bin/s32imdbpy.py] and the properties of its
    row-block generator, schema builder and file / directory importers.

    Layout of the development:
    - [Py]: the Python built-ins the script relies on (UTF-8 decoding,
      [str.strip], [str.split], [str.replace], dynamic values, exceptions);
    - the Transform Registry [DB_TRANSFORM] (imported by the script from
      [imdb.parser.s3.utils]) as a type class;
    - [generate_content], [build_table], [import_file], [import_dir];
    - fixtures, then the theorems: the claims of the specification first,
      further properties of the script after them. *)

From Stdlib Require Import Strings.Byte.
From stdpp Require Import base option list gmap strings.

Set Default Proof Using "Type".

(* ===================================================================== *)
(** * Python built-ins *)
(* ===================================================================== *)

Module Py.

(** A Python [bytes] object, and a Python [str] as its sequence of Unicode
    code points. *)
Abbreviation bytes := (list byte).
Abbreviation str := (list N).

(** Exceptions deriving from [Exception], by class. *)
Inductive exn : Type :=
  | UnicodeDecodeError
  | ValueError (msg : string)
  | TypeError (msg : string)
  | DBAPIError (msg : string)
  | ArgumentError (msg : string)
  | InvalidRequestError (msg : string).

(** The outcome of a call that may raise. *)
Inductive result (A : Type) : Type :=
  | Ok (a : A)
  | Raise (e : exn).
Arguments Ok {A} a.
Arguments Raise {A} e.

(** Python objects that may sit in a row: [None], a [str], or what a
    transform produced out of one. *)
Inductive value : Type :=
  | VNone
  | VStr (s : str)
  | VInt (z : Z)
  | VBool (b : bool).

(** ** [bytes.decode('utf-8')] (strict error handler) *)

Definition is_cont (b : N) : bool := (128 <=? b)%N && (b <=? 191)%N.

(** Payload of a continuation byte. *)
Definition cont (b : N) : N := N.land b 63.

(** A decoded scalar must be the shortest encoding of itself, must not be
    a surrogate, and must not exceed U+10FFFF. *)
Definition scalar_ok (lo cp : N) : bool :=
  (lo <=? cp)%N && (cp <=? 1114111)%N
  && negb ((55296 <=? cp)%N && (cp <=? 57343)%N).

Fixpoint decode_utf8 (bs : bytes) : option str :=
  match bs with
  | [] => Some []
  | b0 :: bs1 =>
    let n0 := Byte.to_N b0 in
    if (n0 <? 128)%N then cons n0 <$> decode_utf8 bs1
    else if (n0 <? 192)%N then None
    else if (n0 <? 224)%N then
      match bs1 with
      | b1 :: bs2 =>
        let n1 := Byte.to_N b1 in
        let cp := N.lor (N.shiftl (N.land n0 31) 6) (cont n1) in
        if is_cont n1 && scalar_ok 128 cp
        then cons cp <$> decode_utf8 bs2 else None
      | _ => None
      end
    else if (n0 <? 240)%N then
      match bs1 with
      | b1 :: b2 :: bs3 =>
        let n1 := Byte.to_N b1 in
        let n2 := Byte.to_N b2 in
        let cp := N.lor (N.shiftl (N.land n0 15) 12)
                        (N.lor (N.shiftl (cont n1) 6) (cont n2)) in
        if is_cont n1 && is_cont n2 && scalar_ok 2048 cp
        then cons cp <$> decode_utf8 bs3 else None
      | _ => None
      end
    else if (n0 <? 248)%N then
      match bs1 with
      | b1 :: b2 :: b3 :: bs4 =>
        let n1 := Byte.to_N b1 in
        let n2 := Byte.to_N b2 in
        let n3 := Byte.to_N b3 in
        let cp := N.lor (N.shiftl (N.land n0 7) 18)
                        (N.lor (N.shiftl (cont n1) 12)
                               (N.lor (N.shiftl (cont n2) 6) (cont n3))) in
        if is_cont n1 && is_cont n2 && is_cont n3 && scalar_ok 65536 cp
        then cons cp <$> decode_utf8 bs4 else None
      | _ => None
      end
    else None
  end.

(** [line.decode('utf-8')]: raises [UnicodeDecodeError] on malformed input. *)
Definition decode (bs : bytes) : result str :=
  match decode_utf8 bs with
  | Some s => Ok s
  | None => Raise UnicodeDecodeError
  end.

(** ** [str.strip()] *)

(** [str.isspace] on one code point: the characters CPython's
    [_PyUnicode_IsWhitespace] accepts. *)
Definition isspace (c : N) : bool :=
  ((9 <=? c)%N && (c <=? 13)%N)
  || ((28 <=? c)%N && (c <=? 32)%N)
  || (c =? 133)%N || (c =? 160)%N || (c =? 5760)%N
  || ((8192 <=? c)%N && (c <=? 8202)%N)
  || (c =? 8232)%N || (c =? 8233)%N || (c =? 8239)%N
  || (c =? 8287)%N || (c =? 12288)%N.

Fixpoint lstrip (s : str) : str :=
  match s with
  | [] => []
  | c :: s' => if isspace c then lstrip s' else s
  end.

Fixpoint rstrip (s : str) : str :=
  match s with
  | [] => []
  | c :: s' =>
    match rstrip s' with
    | [] => if isspace c then [] else [c]
    | t => c :: t
    end
  end.

Definition strip (s : str) : str := lstrip (rstrip s).

(** ** [str.split(sep)] for a one-character separator *)

Fixpoint split (sep : N) (s : str) : list str :=
  match s with
  | [] => [[]]
  | c :: s' =>
    if (c =? sep)%N then [] :: split sep s'
    else match split sep s' with
         | f :: fs => (c :: f) :: fs
         | [] => [[c]]
         end
  end.

(** ** [str.replace(old, new)] for a non-empty [old] *)

Fixpoint starts_with (p s : str) : bool :=
  match p, s with
  | [], _ => true
  | _ :: _, [] => false
  | a :: p', c :: s' => (a =? c)%N && starts_with p' s'
  end.

(** Left-to-right scan; [skip] counts the characters of a match just
    replaced that are still to be passed over. *)
Fixpoint replace_from (old new s : str) (skip : nat) : str :=
  match s with
  | [] => []
  | c :: s' =>
    match skip with
    | S k => replace_from old new s' k
    | O =>
      if starts_with old s
      then new ++ replace_from old new s' (Nat.pred (length old))
      else c :: replace_from old new s' 0
    end
  end.

Definition replace (old new s : str) : str := replace_from old new s 0.

(** ** Literals *)

(** The code points of an ASCII literal. *)
Definition u (s : string) : str :=
  (λ b, Byte.to_N b) <$> String.list_byte_of_string s.

(** The bytes of an ASCII literal. *)
Definition b (s : string) : bytes := String.list_byte_of_string s.

Definition TAB : N := 9.
Definition tab_byte : byte := x09.
Definition nl_byte : byte := x0a.

End Py.
Import Py.

Local Open Scope list_scope.

(* ===================================================================== *)
(** * Data model *)
(* ===================================================================== *)

(** A row handed to the database: a [dict] from column name to value.  The
    script never relies on the order of its keys. *)
Abbreviation row := (gmap str value).

(** A transform function of the registry: any callable, so it may raise. *)
Abbreviation transform := (value → result value).

(** The storage types a column can be declared with. *)
Inductive sqltype : Type :=
  | UnicodeText
  | Unicode
  | Integer
  | Boolean
  | Float.

(** The per-column entry of the registry: the keys ['type'] and
    ['transform'], each of which may be missing. *)
Record conf : Type := Conf {
  conf_type : option sqltype;
  conf_transform : option transform;
}.

(** Modelled from the spec: the Transform Registry [DB_TRANSFORM], which the
    script imports from [imdb.parser.s3.utils]; that module is not among the
    sources.  "A static mapping from (table name, column name) to an optional
    storage type and an optional value-transform function."  Every
    definition below takes it as a parameter. *)
Class TransformRegistry : Type :=
  DB_TRANSFORM : gmap str (gmap str conf).

(** [sqlalchemy.Column(header, col_type)], and the [Table] object that
    [sqlalchemy.Table(table_name, metadata, *columns)] returns: its name
    and the columns it ended up with. *)
Record Column : Type := mkColumn {
  col_name : str;
  col_type : sqltype;
}.

Record Table : Type := mkTable {
  name : str;
  columns : list Column;
}.

Definition TSV_EXT : str := u ".tsv.gz".

(** How many entries to write to the database at a time. *)
Definition BLOCK_SIZE : nat := Z.to_nat 10000.

(** What a generator does when it is iterated to its end: it yields values
    and then either stops or raises.  The consumer reads it front to back,
    so what follows a [Yield] has not happened yet when the value is handed
    over. *)
Inductive run (A : Type) : Type :=
  | Stop
  | Fail (e : exn)
  | Yield (a : A) (rest : run A).
Arguments Stop {A}.
Arguments Fail {A} e.
Arguments Yield {A} a rest.

(** The values a run yields, in order. *)
Fixpoint yielded {A} (r : run A) : list A :=
  match r with
  | Yield a rest => a :: yielded rest
  | _ => []
  end.

(** The exception a run ends with, if any. *)
Fixpoint raised {A} (r : run A) : option exn :=
  match r with
  | Stop => None
  | Fail e => Some e
  | Yield _ rest => raised rest
  end.

(** [dict(pairs)]: keys are inserted in order, a later pair overwrites. *)
Definition py_dict {V} (pairs : list (str * V)) : gmap str V :=
  foldl (λ d kv, <[kv.1 := kv.2]> d) ∅ pairs.

(* ===================================================================== *)
(** * [generate_content] *)
(* ===================================================================== *)

Section registry.
Context {registry : TransformRegistry}.

(** Lines 57-60: the transforms registered for the table. *)
Definition data_transf_of (table_name : str) : gmap str transform :=
  map_fold
    (λ column conf data_transf,
       match conf_transform conf with
       | Some f => <[column := f]> data_transf
       | None => data_transf
       end)
    ∅ (default ∅ (DB_TRANSFORM !! table_name)).

(** [x if x != r'\N' else None] *)
Definition null_to_none (x : str) : value :=
  if decide (x = u "\N") then VNone else VStr x.

(** Line 65. *)
Definition make_info (headers s_line : list str) : row :=
  py_dict (zip headers (null_to_none <$> s_line)).

(** Lines 66-69, over [data_transf.items()].  The items are taken in the
    order of [map_to_list]; the script takes them in the order of its
    [dict].  Each transform reads and writes its own key only, so the rows
    and whether a row comes out do not depend on the order; which
    exception is raised when two transforms raise on one row does. *)
Fixpoint apply_transforms (items : list (str * transform)) (info : row)
  : result row :=
  match items with
  | [] => Ok info
  | (key, tranf) :: items' =>
    match info !! key with
    | None => apply_transforms items' info
    | Some v =>
      match tranf v with
      | Ok v' => apply_transforms items' (<[key := v']> info)
      | Raise e => Raise e
      end
    end
  end.

(** [line.decode('utf-8').strip().split('\t')] *)
Definition fields_of (line : bytes) : result (list str) :=
  match decode line with
  | Ok text => Ok (split TAB (strip text))
  | Raise e => Raise e
  end.

(** What the body of the [for line in fd] loop does with one line, up to
    [data.append(info)]: skip it, produce a row, or raise. *)
Inductive line_result : Type :=
  | Skipped
  | Row (info : row)
  | Raises (e : exn).

Definition process_line (headers : list str) (data_transf : gmap str transform)
    (line : bytes) : line_result :=
  match fields_of line with
  | Raise e => Raises e
  | Ok s_line =>
    if decide (length s_line ≠ length headers) then Skipped
    else
      match apply_transforms (map_to_list data_transf)
                             (make_info headers s_line) with
      | Ok info => Row info
      | Raise e => Raises e
      end
  end.

(** Lines 61-76, with [data] the rows buffered so far. *)
Fixpoint gen_loop (block_size : nat) (headers : list str)
    (data_transf : gmap str transform)
    (fd : list bytes) (data : list row) : run (list row) :=
  match fd with
  | [] =>
    match data with
    | [] => Stop
    | _ => Yield data Stop
    end
  | line :: fd' =>
    match process_line headers data_transf line with
    | Raises e => Fail e
    | Skipped => gen_loop block_size headers data_transf fd' data
    | Row info =>
      let data := data ++ [info] in
      if Nat.leb block_size (length data)
      then Yield data (gen_loop block_size headers data_transf fd' [])
      else gen_loop block_size headers data_transf fd' data
    end
  end.

(** The generator with the block size left open. *)
Definition generate_content_sized (block_size : nat)
    (fd : list bytes) (headers : list str) (table : Table)
  : run (list row) :=
  gen_loop block_size headers (data_transf_of (name table)) fd [].

Definition generate_content (fd : list bytes) (headers : list str)
    (table : Table) : run (list row) :=
  generate_content_sized BLOCK_SIZE fd headers table.

(** ** The generator, one [next()] at a time *)

(** Where a generator object of [generate_content] is suspended: not yet
    started or at the [yield] of line 72, with the lines still to read; at
    the [yield] of line 75; or finished. *)
Inductive gen_state : Type :=
  | AtLoop (fd : list bytes)
  | AtLast
  | Exhausted.

(** What one call of [next()] gives. *)
Inductive gen_step : Type :=
  | Yields (blk : list row) (st : gen_state)
  | Stops
  | Throws (e : exn).

(** Run the loop of lines 61-73 up to the next [yield]. *)
Fixpoint loop_to_yield (block_size : nat) (headers : list str)
    (data_transf : gmap str transform)
    (fd : list bytes) (data : list row) : gen_step :=
  match fd with
  | [] =>
    match data with
    | [] => Stops
    | _ => Yields data AtLast
    end
  | line :: fd' =>
    match process_line headers data_transf line with
    | Raises e => Throws e
    | Skipped => loop_to_yield block_size headers data_transf fd' data
    | Row info =>
      let data := data ++ [info] in
      if Nat.leb block_size (length data)
      then Yields data (AtLoop fd')
      else loop_to_yield block_size headers data_transf fd' data
    end
  end.

(** [next(gen)]: resuming at either [yield] starts with [data = []]. *)
Definition gen_next (block_size : nat) (headers : list str)
    (data_transf : gmap str transform) (st : gen_state) : gen_step :=
  match st with
  | AtLoop fd => loop_to_yield block_size headers data_transf fd []
  | AtLast => Stops
  | Exhausted => Stops
  end.

(** Iterating the generator to its end, by at most [fuel] calls of
    [next()]. *)
Fixpoint iterate (fuel : nat) (block_size : nat) (headers : list str)
    (data_transf : gmap str transform) (st : gen_state) : run (list row) :=
  match fuel with
  | O => Stop
  | S fuel' =>
    match gen_next block_size headers data_transf st with
    | Yields blk st' =>
      Yield blk (iterate fuel' block_size headers data_transf st')
    | Stops => Stop
    | Throws e => Fail e
    end
  end.

(* =================================================================== *)
(** * [build_table] *)
(* =================================================================== *)

(** Line 88. *)
Definition table_name_of (fn : str) : str :=
  replace (u ".") (u "_") (replace TSV_EXT (u "") fn).

(** Lines 92-93: [x.get(k) or default] falls back to the default when
    the key is missing (or holds a false value, which a registry entry
    does not). *)
Definition col_type_of (table_map : gmap str conf) (header : str) : sqltype :=
  let col_info := default (Conf None None) (table_map !! header) in
  default UnicodeText (conf_type col_info).

Definition build_columns (table_map : gmap str conf) (headers : list str)
  : list Column :=
  (λ header, mkColumn header (col_type_of table_map header)) <$> headers.

(** Lines 88-95: the table name and the list [columns]. *)
Definition table_columns (fn : str) (headers : list str) : list Column :=
  build_columns (default ∅ (DB_TRANSFORM !! table_name_of fn)) headers.

End registry.

(** ** [sqlalchemy.Table] *)

(** The two exceptions [Table] raises on what [build_table] gives it; the
    message of the second is abridged (the library puts the table name in
    it). *)
Definition blank_column_name : exn :=
  ArgumentError "Column must be constructed with a non-blank name or assign a non-blank .name before adding to a Table.".

Definition already_defined : exn :=
  InvalidRequestError "Table is already defined for this MetaData instance.".

(** What [Table] does with one of the columns it is given
    ([Column._set_parent]): a column without a name is refused, a column
    whose name the table already holds takes the place of that column, any
    other is added at the end. *)
Definition append_column (cols : list Column) (c : Column)
  : result (list Column) :=
  match col_name c with
  | [] => Raise blank_column_name
  | _ =>
    if bool_decide (col_name c ∈ col_name <$> cols)
    then Ok ((λ c', if decide (col_name c' = col_name c) then c else c') <$> cols)
    else Ok (cols ++ [c])
  end.

(** The columns are attached one after the other. *)
Fixpoint attach_columns (cols : list Column) (new : list Column)
  : result (list Column) :=
  match new with
  | [] => Ok cols
  | c :: new' =>
    match append_column cols c with
    | Ok cols' => attach_columns cols' new'
    | Raise e => Raise e
    end
  end.

(** [sqlalchemy.Table(table_name, metadata, *columns)] over the tables
    [metadata] holds ([Table.__new__]).  A name that [metadata] holds
    already is refused when columns are given and gives the table held when
    none are; a new table is entered into [metadata] unless one of its
    columns is refused. *)
Definition sqlalchemy_Table (table_name : str) (metadata : gmap str Table)
    (columns : list Column) : gmap str Table * result Table :=
  match metadata !! table_name with
  | Some table =>
    match columns with
    | [] => (metadata, Ok table)
    | _ => (metadata, Raise already_defined)
    end
  | None =>
    match attach_columns [] columns with
    | Ok cols =>
      let table := mkTable table_name cols in
      (<[table_name := table]> metadata, Ok table)
    | Raise e => (metadata, Raise e)
    end
  end.

(* ===================================================================== *)
(** * The importers *)
(* ===================================================================== *)

(** The records handed to [logging], one constructor per call site. *)
Inductive log_record : Type :=
  | LogBuildingTable (fn : str)
      (* debug: 'building table for file %s' *)
  | LogBegin (fn : str)
      (* info: 'begin processing file %s' *)
  | LogEntriesLost (lost : nat) (e : exn)
      (* error: 'error processing data: %d entries lost: %s' *)
  | LogEnd (fn : str) (count : nat)
      (* info: 'end processing file %s: %d entries' *)
  | LogSkipping (fn : str).
      (* debug: 'skipping file %s' *)

(** The SQLAlchemy engine, as far as the script calls it.  [DB] is the
    state of the database behind it; each call may change it and may
    raise. *)
Class Engine (DB : Type) : Type := {
  connect : DB → DB * result unit;
  create_all : Table → DB → DB * result unit;
  execute : Table → list row → DB → DB * result unit;
}.

(** What the script acts on: the database, the log, and the tables of the
    module-level [metadata] (line 40). *)
Record world (DB : Type) : Type := World {
  w_db : DB;
  w_log : list log_record;
  w_metadata : gmap str Table;
}.
Arguments World {DB} w_db w_log w_metadata.
Arguments w_db {DB} w.
Arguments w_log {DB} w.
Arguments w_metadata {DB} w.

(** A [.tsv.gz] file on disk: its path and the lines its decompressed
    content reads as ([readline] keeps each line's terminator).  The file
    is taken to open and to decompress without error. *)
Record gz_file : Type := GzFile {
  gz_path : str;
  gz_lines : list bytes;
}.

(** An entry that [glob] may return: a regular file or something else
    (a directory, say) under that name. *)
Record dir_entry : Type := DirEntry {
  entry_name : str;
  entry_isfile : bool;
  entry_lines : list bytes;
}.

(** A computation of the script: it may change the world and may raise;
    what it did before raising stays done. *)
Definition M (DB A : Type) : Type := world DB → world DB * result A.

Definition ret {DB A} (a : A) : M DB A := λ w, (w, Ok a).

Definition bind {DB A B} (c : M DB A) (k : A → M DB B) : M DB B :=
  λ w, match c w with
       | (w', Ok a) => k a w'
       | (w', Raise e) => (w', Raise e)
       end.

Declare Scope py_scope.
Delimit Scope py_scope with py.
Notation "x <- c ;; k" := (bind c (λ x, k))
  (at level 100, c at next level, right associativity) : py_scope.
Notation "c ;; k" := (bind c (λ _, k))
  (at level 100, right associativity) : py_scope.

(** Raise what a pure call raised. *)
Definition lift {DB A} (r : result A) : M DB A := λ w, (w, r).

Definition logging {DB} (r : log_record) : M DB unit :=
  λ w, (World (w_db w) (w_log w ++ [r]) (w_metadata w), Ok tt).

(** Run an engine call on the database. *)
Definition on_db {DB} (call : DB → DB * result unit) : M DB unit :=
  λ w, let '(db, r) := call (w_db w) in
       (World db (w_log w) (w_metadata w), r).

(** Construct a table in [metadata]. *)
Definition on_metadata {DB : Type}
    (call : gmap str Table → gmap str Table * result Table) : M DB Table :=
  λ w, let '(metadata, r) := call (w_metadata w) in
       (World (w_db w) (w_log w) metadata, r).

(** [os.path.basename] *)
Fixpoint basename (p : str) : str :=
  match p with
  | [] => []
  | c :: p' =>
    if bool_decide (47%N ∈ p') then basename p'
    else if (c =? 47)%N then p' else p
  end.

(** [os.path.join(a, b)] *)
Definition path_join (a b : str) : str :=
  match b with
  | 47%N :: _ => b
  | _ =>
    match last a with
    | None => b
    | Some 47%N => a ++ b
    | Some _ => a ++ [47%N] ++ b
    end
  end.

(** [fd.readline()]: the next line, or [b''] at the end of the file. *)
Definition readline (fd : list bytes) : bytes * list bytes :=
  match fd with
  | [] => ([], [])
  | line :: fd' => (line, fd')
  end.

Section importers.
Context {registry : TransformRegistry} {DB : Type} {engine : Engine DB}.
Local Open Scope py_scope.

(** Lines 87-96. *)
Definition build_table (fn : str) (headers : list str) : M DB Table :=
  logging (LogBuildingTable fn) ;;
  let table_name := table_name_of fn in
  let columns := table_columns fn headers in
  on_metadata (λ metadata, sqlalchemy_Table table_name metadata columns).

(** The local variables the [try] block of [import_file] assigns. *)
Record locals : Type := Locals {
  block : list row;
  count : nat;
}.

(** Lines 117-119: the [for] loop over the generator, started with the
    given locals.  It ends when the generator stops, when the generator
    raises, or when [connection.execute] raises; the exception comes back
    with the locals as they are at that moment. *)
Fixpoint for_blocks (table : Table) (gen : run (list row)) (vars : locals)
  : world DB → world DB * (locals * option exn) :=
  λ w,
  match gen with
  | Stop => (w, (vars, None))
  | Fail e => (w, (vars, Some e))
  | Yield block' rest =>
    let vars := Locals block' (count vars) in
    match on_db (execute table block') w with
    | (w', Raise e) => (w', (vars, Some e))
    | (w', Ok _) =>
      for_blocks table rest (Locals block' (count vars + length block')) w'
    end
  end.

(** Lines 116-121: the [try] statement.  Its handler catches every
    exception of the loop and logs it; nothing is raised further. *)
Definition try_blocks (table : Table) (gen : run (list row)) (vars : locals)
  : M DB locals :=
  λ w,
  match for_blocks table gen vars w with
  | (w', (vars', None)) => (w', Ok vars')
  | (w', (vars', Some e)) =>
    (logging (LogEntriesLost (length (block vars')) e) ;; ret vars') w'
  end.

(** Lines 107-114: everything [import_file] does before the [try]
    statement.  None of it is guarded: what raises here is raised to the
    caller of [import_file]. *)
Definition import_file_setup (f : gz_file)
  : M DB (list bytes * list str * Table) :=
  let fn := gz_path f in
  logging (LogBegin fn) ;;
  on_db connect ;;
  let gz_file := gz_lines f in
  let '(first, gz_file) := readline gz_file in
  text <- lift (decode first) ;;
  let headers := split TAB (strip text) in
  table <- build_table (basename fn) headers ;;
  on_db (create_all table) ;;
  ret (gz_file, headers, table).

(** Lines 107-122; [count = 0] (line 109) and [block = []] (line 115) are
    the locals the [try] statement starts with. *)
Definition import_file_sized (block_size : nat) (f : gz_file) : M DB unit :=
  opened <- import_file_setup f ;;
  let '(gz_file, headers, table) := opened in
  vars <- try_blocks table
            (generate_content_sized block_size gz_file headers table)
            (Locals [] 0) ;;
  logging (LogEnd (gz_path f) (count vars)).

Definition import_file (f : gz_file) : M DB unit :=
  import_file_sized BLOCK_SIZE f.

(** [str.endswith] *)
Definition ends_with (suffix s : str) : bool :=
  starts_with (reverse suffix) (reverse s).

(** [glob.glob(os.path.join(dir_name, '*.tsv.gz'))] over the entries of the
    directory, in listing order: the names that end in the suffix and do
    not start with a dot.  [dir_name] is taken as it is written: a
    directory name with the characters [*], [?] or [[], which [glob] reads
    as a pattern, is not covered. *)
Definition glob_tsv (dir_name : str) (listing : list dir_entry)
  : list dir_entry :=
  (λ e, DirEntry (path_join dir_name (entry_name e))
                 (entry_isfile e) (entry_lines e))
  <$> filter (λ e, ends_with TSV_EXT (entry_name e) = true
                   ∧ head (entry_name e) ≠ Some 46%N) listing.

(** Lines 133-137, over what [glob] returned. *)
Fixpoint import_entries (block_size : nat) (entries : list dir_entry)
  : M DB unit :=
  match entries with
  | [] => ret tt
  | e :: entries' =>
    let fn := entry_name e in
    if negb (entry_isfile e) then
      logging (LogSkipping fn) ;;
      import_entries block_size entries'
    else
      import_file_sized block_size (GzFile fn (entry_lines e)) ;;
      import_entries block_size entries'
  end.

Definition import_dir_sized (block_size : nat) (dir_name : str)
    (listing : list dir_entry) : M DB unit :=
  import_entries block_size (glob_tsv dir_name listing).

Definition import_dir (dir_name : str) (listing : list dir_entry)
  : M DB unit :=
  import_dir_sized BLOCK_SIZE dir_name listing.

End importers.

(* ===================================================================== *)
(** * Vocabulary of the properties *)
(* ===================================================================== *)

#[global] Instance value_eq_dec : EqDecision value.
Proof. solve_decision. Defined.

(** The line decodes and splits into as many fields as there are headers
    (the negation of the test of line 63). *)
Definition matches_header (headers : list str) (line : bytes) : bool :=
  match fields_of line with
  | Ok s_line => bool_decide (length s_line = length headers)
  | Raise _ => false
  end.

(** The row the loop body appends for a line, if it appends one. *)
Definition line_row (headers : list str) (dt : gmap str transform)
    (line : bytes) : option row :=
  match process_line headers dt line with
  | Row info => Some info
  | _ => None
  end.

(** The loop body raises on the line. *)
Definition line_raises (headers : list str) (dt : gmap str transform)
    (line : bytes) : Prop :=
  ∃ e, process_line headers dt line = Raises e.

(** Every block but the last is full, the last holds at least one row. *)
Fixpoint well_sized (block_size : nat) (blocks : list (list row)) : Prop :=
  match blocks with
  | [] => True
  | [last] => 1 ≤ length last ≤ block_size
  | blk :: rest => length blk = block_size ∧ well_sized block_size rest
  end.

(** The transform the registry holds for a column of a table. *)
Definition registered_transform {registry : TransformRegistry} (table_name column : str)
  : option transform :=
  match DB_TRANSFORM !! table_name with
  | Some table_map =>
    match table_map !! column with
    | Some col_info => conf_transform col_info
    | None => None
    end
  | None => None
  end.

(** The storage type the registry declares for a column of a table. *)
Definition registry_type {registry : TransformRegistry} (table_name column : str)
  : option sqltype :=
  match DB_TRANSFORM !! table_name with
  | Some table_map =>
    match table_map !! column with
    | Some col_info => conf_type col_info
    | None => None
    end
  | None => None
  end.

(** The column [build_table] makes for a header: the header as its name,
    the storage type of the registry or [UnicodeText]. *)
Definition registry_column {registry : TransformRegistry}
    (table_name header : str) : Column :=
  mkColumn header (default UnicodeText (registry_type table_name header)).

(** The names of a list without their repetitions, each where it comes
    first. *)
Fixpoint first_occurrences (l : list str) : list str :=
  match l with
  | [] => []
  | h :: l' => h :: filter (λ x, x ≠ h) (first_occurrences l')
  end.

(** Number of occurrences of a character. *)
Definition count_char (c : N) (s : str) : nat :=
  length (filter (λ x, x = c) s).

Definition occurs (old s : str) : Prop :=
  ∃ pre post, s = pre ++ old ++ post.

(** [old in s] *)
Fixpoint contains (old s : str) : bool :=
  starts_with old s
  || match s with
     | [] => false
     | _ :: s' => contains old s'
     end.

(** The table name as the specification words it: the suffix removed, then
    every dot replaced.  [table_name_of] is what the code computes. *)
Definition dots_to_underscores (s : str) : str :=
  (λ c, if (c =? 46)%N then 95%N else c) <$> s.

Definition remove_suffix (suffix s : str) : str :=
  if ends_with suffix s then take (length s - length suffix) s else s.

Definition spec_table_name (fn : str) : str :=
  dots_to_underscores (remove_suffix TSV_EXT fn).

(** The stream conforms to the layout: every line is UTF-8 text. *)
Definition conforming (fd : list bytes) : Prop :=
  Forall (λ line, is_Some (decode_utf8 line)) fd.

(** No registered transform raises on a row built from a line of the
    stream. *)
Definition transforms_succeed {registry : TransformRegistry} (headers : list str)
    (table : Table) (fd : list bytes) : Prop :=
  Forall (λ line, ∀ s_line,
            fields_of line = Ok s_line → length s_line = length headers →
            ∃ info, apply_transforms (map_to_list (data_transf_of (name table)))
                                     (make_info headers s_line) = Ok info) fd.

(** Rows in all the blocks of a run. *)
Definition total_rows (gen : run (list row)) : nat :=
  length (concat (yielded gen)).

(** Data lines whose field count matches the header count. *)
Definition matching_lines (headers : list str) (fd : list bytes) : nat :=
  length (filter (λ line, matches_header headers line = true) fd).

(** The rows the loop body appends for the lines of a stream, in order. *)
Definition rows_of {registry : TransformRegistry} (headers : list str)
    (table : Table) (fd : list bytes) : list row :=
  omap (line_row headers (data_transf_of (name table))) fd.

(** ['\t'.join(fields)] *)
Fixpoint join_fields (fields : list str) : str :=
  match fields with
  | [] => []
  | [f] => f
  | f :: fs => f ++ TAB :: join_fields fs
  end.

(** A run that yields the given values and goes on as [r]. *)
Definition prepend {A} (values : list A) (r : run A) : run A :=
  foldr Yield r values.

(** Every insert goes through when the blocks are inserted one after the
    other, starting from the database given. *)
Fixpoint inserts_succeed {DB : Type} {engine : Engine DB} (table : Table)
    (blocks : list (list row)) (db : DB) : Prop :=
  match blocks with
  | [] => True
  | blk :: blocks' =>
    (execute table blk db).2 = Ok tt
    ∧ inserts_succeed table blocks' (execute table blk db).1
  end.

(** The database after the blocks were inserted one after the other. *)
Definition insert_all {DB : Type} {engine : Engine DB} (table : Table)
    (blocks : list (list row)) (db : DB) : DB :=
  foldl (λ db blk, (execute table blk db).1) db blocks.

(* ===================================================================== *)
(** * Fixtures *)
(* ===================================================================== *)

Module Fixtures.

(** One line of a file: the fields joined by tabs, then a newline. *)
Fixpoint tsv_line (fields : list string) : bytes :=
  match fields with
  | [] => [nl_byte]
  | [f] => b f ++ [nl_byte]
  | f :: fs => b f ++ tab_byte :: tsv_line fs
  end.

(** A line that is not UTF-8. *)
Definition bad_utf8_line : bytes := [xff; nl_byte].

Definition is_digit (c : N) : bool := (48 <=? c)%N && (c <=? 57)%N.

(** A transform in the manner of [int]: digits to their number, anything
    else raises. *)
Definition to_int : transform := λ v,
  match v with
  | VStr (c :: s) =>
    if forallb is_digit (c :: s)
    then Ok (VInt (foldl (λ acc d, 10 * acc + Z.of_N (d - 48))%Z 0%Z (c :: s)))
    else Raise (ValueError "invalid literal for int() with base 10")
  | VStr [] => Raise (ValueError "invalid literal for int() with base 10")
  | VInt z => Ok (VInt z)
  | VBool flag => Ok (VInt (if flag then 1 else 0))
  | VNone => Raise (TypeError "int() argument must be a string or a number")
  end.

(** A transform in the manner of [lambda x: x == '1']. *)
Definition to_bool : transform := λ v, Ok (VBool (bool_decide (v = VStr (u "1")))).

Definition no_registry : TransformRegistry := (∅ : gmap str (gmap str conf)).

Definition people_registry : TransformRegistry :=
  ({[ u "people" :=
        ({[ u "id" := Conf (Some Integer) (Some to_int);
            u "adult" := Conf (Some Boolean) (Some to_bool) ]} : gmap str conf) ]}
   : gmap str (gmap str conf)).

(** An in-memory database: the rows stored so far with their table; a
    block holding a row whose [id] is [None] is rejected as a whole. *)
Definition mem_db : Type := list (str * row).

Definition mem_execute (t : Table) (blk : list row) (db : mem_db)
  : mem_db * result unit :=
  if bool_decide (Exists (λ r, r !! u "id" = Some VNone) blk)
  then (db, Raise (DBAPIError "NOT NULL constraint failed"))
  else (db ++ ((λ r, (name t, r)) <$> blk), Ok tt).

#[global] Instance mem_engine : Engine mem_db := {|
  connect db := (db, Ok tt);
  create_all _ db := (db, Ok tt);
  execute := mem_execute;
|}.

Definition empty_world : world mem_db := World [] [] ∅.

Definition people_headers : list str := [u "id"; u "name"].

(** The table of a [people] file when the registry says nothing about it. *)
Definition plain_people_table : Table :=
  mkTable (u "people")
    [mkColumn (u "id") UnicodeText; mkColumn (u "name") UnicodeText].
Definition people_table : Table :=
  mkTable (u "people") [mkColumn (u "id") Integer; mkColumn (u "name") UnicodeText].

End Fixtures.
Import Fixtures.

(* ===================================================================== *)
(** * Strings *)
(* ===================================================================== *)

Section strings.
Implicit Types (s t : str) (c sep : N).

Lemma length_split sep s : length (split sep s) = S (count_char sep s).
Proof.
  unfold count_char. induction s as [|c s IH]; [done|].
  rewrite filter_cons. cbn [split]. destruct (N.eqb_spec c sep) as [->|Hne].
  - rewrite decide_True by done. simpl. by rewrite IH.
  - rewrite decide_False by done.
    destruct (split sep s); simpl in *; [done|by rewrite <-IH].
Qed.

Lemma count_char_app c s t : count_char c (s ++ t) = count_char c s + count_char c t.
Proof. unfold count_char. by rewrite filter_app, length_app. Qed.

Lemma count_char_cons c x s :
  count_char c (x :: s) = (if decide (x = c) then 1 else 0) + count_char c s.
Proof. unfold count_char. rewrite filter_cons. by destruct (decide (x = c)). Qed.

Lemma count_char_lstrip c s : count_char c (lstrip s) ≤ count_char c s.
Proof.
  induction s as [|x s IH]; [done|]. simpl.
  destruct (isspace x); [|done]. rewrite count_char_cons. lia.
Qed.

Lemma count_char_rstrip c s : count_char c (rstrip s) ≤ count_char c s.
Proof.
  induction s as [|x s IH]; [done|]. simpl. rewrite (count_char_cons c x s).
  destruct (rstrip s) as [|y t].
  - destruct (isspace x); [unfold count_char; simpl; lia|].
    rewrite count_char_cons. unfold count_char at 1. simpl. lia.
  - rewrite (count_char_cons c x (y :: t)). lia.
Qed.

Lemma rstrip_spaces t : Forall (λ c, isspace c = true) t → rstrip t = [].
Proof. induction 1 as [|c t Hc _ IH]; [done|]. simpl. by rewrite IH, Hc. Qed.

Lemma rstrip_app_spaces s t :
  Forall (λ c, isspace c = true) t → rstrip (s ++ t) = rstrip s.
Proof.
  intros Ht. induction s as [|c s IH]; simpl; [by apply rstrip_spaces|].
  by rewrite IH.
Qed.

Lemma strip_trailing_tab body eol :
  Forall (λ c, isspace c = true) eol →
  length (split TAB (strip (body ++ TAB :: eol)))
  < length (split TAB (body ++ TAB :: eol)).
Proof.
  intros Heol. unfold strip.
  rewrite rstrip_app_spaces by (by constructor).
  rewrite !length_split, count_char_app, count_char_cons.
  rewrite decide_True by done.
  pose proof (count_char_lstrip TAB (rstrip body)).
  pose proof (count_char_rstrip TAB body). lia.
Qed.

(** *** [replace] *)

Lemma replace_from_skip old new s k :
  replace_from old new s k = replace_from old new (drop k s) 0.
Proof.
  revert k. induction s as [|c s IH]; intros [|k]; simpl; try done.
Qed.

Lemma replace_char c c' s :
  replace [c] [c'] s = (λ x, if (x =? c)%N then c' else x) <$> s.
Proof.
  unfold replace. induction s as [|x s IH]; [done|]. simpl.
  rewrite N.eqb_sym. destruct (x =? c)%N; simpl; by rewrite IH.
Qed.

Lemma starts_with_app p s : starts_with p (p ++ s) = true.
Proof. induction p as [|c p IH]; [done|]. simpl. by rewrite N.eqb_refl. Qed.

Lemma starts_with_inv p s : starts_with p s = true → ∃ t, s = p ++ t.
Proof.
  revert s. induction p as [|c p IH]; intros s; simpl; [by exists s|].
  destruct s as [|x s]; [done|].
  intros [->%N.eqb_eq [t ->]%IH]%andb_true_iff. by exists t.
Qed.

Lemma occurs_cons old c s : occurs old s → occurs old (c :: s).
Proof. intros (pre & post & ->). by exists (c :: pre), post. Qed.

(** [.tsv.gz] has no proper prefix that is also a suffix of it, so a match
    cannot start inside [pre] and end inside the occurrence that follows. *)
Lemma tsv_ext_no_straddle pre post :
  pre ≠ [] → starts_with TSV_EXT (pre ++ TSV_EXT ++ post) = true →
  occurs TSV_EXT pre.
Proof.
  intros Hne [t Ht]%starts_with_inv.
  destruct pre as [|c1 [|c2 [|c3 [|c4 [|c5 [|c6 [|c7 rest]]]]]]]; [done|..];
    vm_compute in Ht; simplify_eq.
  by exists [], rest.
Qed.

Lemma replace_from_match old new t :
  old ≠ [] →
  replace_from old new (old ++ t) 0 = new ++ replace_from old new t 0.
Proof.
  destruct old as [|c old]; [done|]. intros _.
  change (replace_from (c :: old) new ((c :: old) ++ t) 0)
    with (if starts_with (c :: old) ((c :: old) ++ t)
          then new ++ replace_from (c :: old) new (old ++ t) (length old)
          else c :: replace_from (c :: old) new (old ++ t) 0).
  rewrite starts_with_app, replace_from_skip. by rewrite drop_app_length.
Qed.

Lemma replace_tsv_ext pre post :
  ¬ occurs TSV_EXT pre →
  replace TSV_EXT [] (pre ++ TSV_EXT ++ post) = pre ++ replace TSV_EXT [] post.
Proof.
  unfold replace. induction pre as [|c pre IH]; intros Hocc.
  - rewrite !app_nil_l. by rewrite (replace_from_match TSV_EXT []).
  - destruct (starts_with TSV_EXT ((c :: pre) ++ TSV_EXT ++ post)) eqn:Hs.
    { destruct Hocc. by eapply tsv_ext_no_straddle. }
    simpl in *. rewrite Hs. f_equal. apply IH.
    intros Hpre. by apply Hocc, occurs_cons.
Qed.

Lemma replace_no_occurrence s :
  ¬ occurs TSV_EXT s → replace TSV_EXT [] s = s.
Proof.
  unfold replace. induction s as [|c s IH]; intros Hocc; [done|].
  destruct (starts_with TSV_EXT (c :: s)) eqn:Hs.
  { destruct Hocc. apply starts_with_inv in Hs as [t ->]. by exists [], t. }
  simpl in *. rewrite Hs. f_equal. apply IH.
  intros Hpre. by apply Hocc, occurs_cons.
Qed.

Lemma dots_to_underscores_app s t :
  dots_to_underscores (s ++ t) = dots_to_underscores s ++ dots_to_underscores t.
Proof. apply fmap_app. Qed.

Lemma table_name_of_eq fn :
  table_name_of fn = dots_to_underscores (replace TSV_EXT [] fn).
Proof. unfold table_name_of. apply (replace_char 46 95). Qed.

Lemma table_name_of_occurrence pre post :
  ¬ occurs TSV_EXT pre →
  table_name_of (pre ++ TSV_EXT ++ post)
  = dots_to_underscores pre ++ table_name_of post.
Proof.
  intros Hocc. rewrite !table_name_of_eq, replace_tsv_ext by done.
  apply dots_to_underscores_app.
Qed.

Lemma ends_with_app suffix s : ends_with suffix (s ++ suffix) = true.
Proof. unfold ends_with. rewrite reverse_app. apply starts_with_app. Qed.

Lemma spec_table_name_suffix base :
  spec_table_name (base ++ TSV_EXT) = dots_to_underscores base.
Proof.
  unfold spec_table_name, remove_suffix. rewrite ends_with_app.
  rewrite length_app, Nat.add_sub. by rewrite take_app_length.
Qed.


End strings.

(* ===================================================================== *)
(** * The generator *)
(* ===================================================================== *)

Section gen.
Context {registry : TransformRegistry}.
Implicit Types (fd : list bytes) (data : list row) (headers : list str) (dt : gmap str transform).

Lemma well_sized_bounds bs blocks :
  1 ≤ bs → well_sized bs blocks → Forall (λ blk, 1 ≤ length blk ≤ bs) blocks.
Proof.
  intros Hbs. induction blocks as [|blk rest IH]; [constructor|].
  destruct rest as [|blk' rest].
  - intros Hlast. constructor; [exact Hlast | constructor].
  - intros [Hlen Hrest]. constructor; [lia | by apply IH].
Qed.

Lemma well_sized_init bs blocks init last :
  well_sized bs blocks → blocks = init ++ [last] →
  Forall (λ blk, length blk = bs) init.
Proof.
  revert init. induction blocks as [|blk rest IH]; intros init Hw Heq.
  { by destruct init. }
  destruct rest as [|blk' rest].
  - destruct init as [|? [|? ?]]; simplify_eq/=. constructor.
  - destruct Hw as [Hlen Hrest].
    destruct init as [|blk0 init]; simplify_eq/=.
    constructor; [done|]. by eapply IH.
Qed.

Lemma gen_loop_well_sized bs headers dt fd data :
  1 ≤ bs → length data < bs →
  well_sized bs (yielded (gen_loop bs headers dt fd data)).
Proof.
  intros Hbs. revert data. induction fd as [|line fd IH]; intros data Hdata; simpl.
  - destruct data as [|r data]; simpl; [done|]. simpl in Hdata. lia.
  - destruct (process_line headers dt line) as [|info|e]; simpl; [by apply IH| |done].
    rewrite length_app. simpl.
    destruct (Nat.leb_spec bs (length data + 1)) as [Hle|Hlt]; simpl.
    + specialize (IH [] ltac:(simpl; lia)).
      destruct (yielded (gen_loop bs headers dt fd [])) eqn:E.
      * rewrite length_app. simpl. lia.
      * split; [rewrite length_app; simpl; lia | done].
    + apply IH. rewrite length_app. simpl. lia.
Qed.

Lemma gen_loop_rows bs headers dt fd data :
  raised (gen_loop bs headers dt fd data) = None →
  concat (yielded (gen_loop bs headers dt fd data))
  = data ++ omap (line_row headers dt) fd.
Proof.
  revert data. induction fd as [|line fd IH]; intros data; simpl.
  - destruct data; simpl; by rewrite ?app_nil_r.
  - unfold line_row.
    destruct (process_line headers dt line) as [|info|e]; simpl; [by apply IH| |done].
    destruct (Nat.leb _ _); simpl; intros Hr; rewrite IH by done.
    + by rewrite <-app_assoc.
    + by rewrite <-app_assoc.
Qed.

Lemma gen_loop_finishes bs headers dt fd data :
  Forall (λ line, ¬ line_raises headers dt line) fd →
  raised (gen_loop bs headers dt fd data) = None.
Proof.
  intros Hfd. revert data. induction Hfd as [|line fd Hline _ IH]; intros data; simpl.
  - by destruct data.
  - destruct (process_line headers dt line) as [|info|e] eqn:E; simpl; [by apply IH| |].
    + destruct (Nat.leb _ _); simpl; apply IH.
    + destruct Hline. by exists e.
Qed.


Lemma gen_loop_skip bs headers dt fd1 fd2 line data :
  process_line headers dt line = Skipped →
  gen_loop bs headers dt (fd1 ++ line :: fd2) data
  = gen_loop bs headers dt (fd1 ++ fd2) data.
Proof.
  intros Hskip. revert data. induction fd1 as [|l fd1 IH]; intros data; simpl.
  - by rewrite Hskip.
  - destruct (process_line headers dt l); [by apply IH| |done].
    destruct (Nat.leb _ _); by rewrite IH.
Qed.

Lemma process_line_skipped headers dt line s_line :
  fields_of line = Ok s_line → length s_line ≠ length headers →
  process_line headers dt line = Skipped.
Proof.
  intros Hf Hlen. unfold process_line. rewrite Hf. by rewrite decide_True.
Qed.

Lemma line_row_matches headers dt line :
  ¬ line_raises headers dt line →
  is_Some (line_row headers dt line) ↔ matches_header headers line = true.
Proof.
  unfold line_raises, line_row, matches_header, process_line.
  destruct (fields_of line) as [s_line|e]; [|intros []; by eexists].
  destruct (decide (length s_line ≠ length headers)) as [Hne|Heq].
  - intros _. rewrite bool_decide_eq_true. split; [by intros [? ?]|done].
  - apply dec_stable in Heq. rewrite bool_decide_eq_true.
    destruct (apply_transforms _ _); [by eauto|intros []; by eexists].
Qed.

Lemma rows_count headers dt fd :
  Forall (λ line, ¬ line_raises headers dt line) fd →
  length (omap (line_row headers dt) fd)
  = length (filter (λ line, matches_header headers line = true) fd).
Proof.
  induction 1 as [|line fd Hline _ IH]; [done|].
  rewrite filter_cons. pose proof (line_row_matches _ _ _ Hline) as Hiff.
  cbn [omap list_omap].
  destruct (line_row headers dt line) eqn:E.
  - rewrite decide_True by (apply Hiff; eauto). simpl. by rewrite <-IH.
  - rewrite decide_False; [done|]. intros Hm%Hiff. by destruct Hm.
Qed.
(** The run of [gen_loop] is what calling [next()] until the generator
    stops gives: every line read ends at most one call, so one call more
    than there are lines is enough. *)
Lemma loop_to_yield_run bs headers dt fd data fuel :
  length fd < fuel →
  gen_loop bs headers dt fd data
  = match loop_to_yield bs headers dt fd data with
    | Yields blk st => Yield blk (iterate fuel bs headers dt st)
    | Stops => Stop
    | Throws e => Fail e
    end.
Proof.
  revert data fuel. induction fd as [|line fd IH]; intros data fuel Hfuel.
  - destruct fuel as [|fuel]; [simpl in Hfuel; lia|]. by destruct data.
  - simpl in Hfuel. simpl.
    destruct (process_line headers dt line) as [|info|e]; [apply IH; lia| |done].
    destruct (Nat.leb _ _); [|apply IH; lia].
    destruct fuel as [|fuel]; [lia|]. f_equal.
    rewrite (IH [] fuel) by lia. reflexivity.
Qed.

Lemma gen_loop_iterate bs headers dt fd :
  gen_loop bs headers dt fd []
  = iterate (S (S (length fd))) bs headers dt (AtLoop fd).
Proof.
  rewrite (loop_to_yield_run _ _ _ _ _ (S (length fd))) by lia. reflexivity.
Qed.
End gen.

(* ===================================================================== *)
(** * Rows and transforms *)
(* ===================================================================== *)

Section tr.
Context {registry : TransformRegistry}.
Implicit Types (info r : row) (items : list (str * transform)) (dt : gmap str transform).

Lemma data_transf_of_lookup table_name column :
  data_transf_of table_name !! column = registered_transform table_name column.
Proof.
  unfold data_transf_of, registered_transform.
  destruct (DB_TRANSFORM !! table_name) as [table_map|]; simpl;
    [|by rewrite map_fold_empty].
  apply (map_fold_weak_ind
           (λ acc (m : gmap str conf),
              acc !! column = match m !! column with
                              | Some col_info => conf_transform col_info
                              | None => None
                              end)).
  - by rewrite !lookup_empty.
  - intros k cf m acc Hk IH.
    destruct (decide (k = column)) as [->|Hne].
    + rewrite lookup_insert_eq.
      destruct (conf_transform cf); [by rewrite lookup_insert_eq|].
      rewrite IH, Hk. done.
    + rewrite lookup_insert_ne by done.
      destruct (conf_transform cf); [by rewrite lookup_insert_ne|done].
Qed.

Lemma apply_transforms_other items info r key :
  key ∉ items.*1 → apply_transforms items info = Ok r → r !! key = info !! key.
Proof.
  revert info. induction items as [|[k f] items IH]; intros info Hk; simpl.
  - by intros [= ->].
  - apply not_elem_of_cons in Hk as [Hne Hk]. simpl in Hne.
    destruct (info !! k) as [v|]; [|by apply IH].
    destruct (f v) as [v'|e]; [|done].
    intros ->%IH; [|done]. by rewrite lookup_insert_ne.
Qed.

Lemma apply_transforms_at items info r key f :
  NoDup items.*1 → (key, f) ∈ items → apply_transforms items info = Ok r →
  match info !! key with
  | Some v => ∃ v', f v = Ok v' ∧ r !! key = Some v'
  | None => r !! key = None
  end.
Proof.
  revert info. induction items as [|[k g] items IH]; intros info Hnd Hin; simpl.
  { by apply elem_of_nil in Hin. }
  apply NoDup_cons in Hnd as [Hk Hnd].
  apply elem_of_cons in Hin as [[= <- <-]|Hin].
  - destruct (info !! key) as [v|] eqn:Hv.
    + destruct (f v) as [v'|e]; [|done].
      intros Hr. exists v'. split; [done|].
      rewrite (apply_transforms_other _ _ _ key Hk Hr). by rewrite lookup_insert_eq.
    + intros Hr. by rewrite (apply_transforms_other _ _ _ key Hk Hr).
  - assert (k ≠ key) as Hne.
    { intros ->. apply Hk. apply list_elem_of_fmap. by exists (key, f). }
    destruct (info !! k) as [v|]; [|by apply IH].
    destruct (g v) as [v'|e]; [|done].
    intros Hr. specialize (IH _ Hnd Hin Hr).
    by rewrite lookup_insert_ne in IH.
Qed.

Lemma apply_transforms_map dt info r key :
  apply_transforms (map_to_list dt) info = Ok r →
  match dt !! key with
  | None => r !! key = info !! key
  | Some f =>
    match info !! key with
    | Some v => ∃ v', f v = Ok v' ∧ r !! key = Some v'
    | None => r !! key = None
    end
  end.
Proof.
  intros Hr. destruct (dt !! key) as [f|] eqn:Hk.
  - eapply apply_transforms_at; [apply NoDup_fst_map_to_list| |done].
    by apply elem_of_map_to_list.
  - eapply apply_transforms_other; [|done].
    intros [[k f] [-> Hin%elem_of_map_to_list]]%list_elem_of_fmap. simpl in *. congruence.
Qed.

Lemma foldl_insert_other {V} (pairs : list (str * V)) (d : gmap str V) key :
  key ∉ pairs.*1 →
  foldl (λ d kv, <[kv.1 := kv.2]> d) d pairs !! key = d !! key.
Proof.
  revert d. induction pairs as [|[k v] pairs IH]; intros d Hk; simpl; [done|].
  apply not_elem_of_cons in Hk as [Hne Hk]. simpl in Hne.
  rewrite IH by done. by rewrite lookup_insert_ne.
Qed.

Lemma foldl_insert_last {V} (pairs : list (str * V)) (d : gmap str V) i key v :
  pairs !! i = Some (key, v) →
  (∀ j kv, i < j → pairs !! j = Some kv → kv.1 ≠ key) →
  foldl (λ d kv, <[kv.1 := kv.2]> d) d pairs !! key = Some v.
Proof.
  revert d i. induction pairs as [|[k w] pairs IH]; intros d i Hi Hlater; [done|].
  destruct i as [|i]; simpl in *.
  - simplify_eq. rewrite foldl_insert_other; [by rewrite lookup_insert_eq|].
    intros [kv [Hkv Hin]]%list_elem_of_fmap.
    apply list_elem_of_lookup in Hin as [j Hj].
    apply (Hlater (S j) kv); [lia|done|done].
  - apply (IH _ i); [done|]. intros j kv Hlt Hj. apply (Hlater (S j) kv); [lia|done].
Qed.

Lemma make_info_lookup headers s_line i h x :
  headers !! i = Some h → s_line !! i = Some x →
  (∀ j, i < j → headers !! j ≠ Some h) →
  make_info headers s_line !! h = Some (null_to_none x).
Proof.
  intros Hh Hx Hlater. unfold make_info, py_dict.
  apply (foldl_insert_last _ _ i).
  - rewrite lookup_zip_with. rewrite Hh. simpl. rewrite list_lookup_fmap, Hx. done.
  - intros j [k v] Hlt Hj Hk. simpl in Hk. subst k.
    apply lookup_zip_with_Some in Hj as (h' & v' & [= <- <-] & Hj & _).
    by apply (Hlater j).
Qed.

Lemma make_info_lookup_None headers s_line h :
  h ∉ headers → make_info headers s_line !! h = None.
Proof.
  intros Hh. unfold make_info, py_dict. rewrite foldl_insert_other; [done|].
  intros [[k v] [-> Hin]]%list_elem_of_fmap. apply Hh.
  apply list_elem_of_lookup in Hin as [j Hj].
  apply lookup_zip_with_Some in Hj as (h' & v' & [= <- <-] & Hj & _).
  by eapply list_elem_of_lookup_2.
Qed.

Lemma null_to_none_spec x :
  (x = u "\N" → null_to_none x = VNone)
  ∧ (null_to_none x = VNone → x = u "\N")
  ∧ (x ≠ u "\N" → null_to_none x = VStr x).
Proof.
  unfold null_to_none. destruct (decide (x = u "\N")); naive_solver.
Qed.
End tr.

(* ===================================================================== *)
(** * Properties of [generate_content] *)
(* ===================================================================== *)

Lemma well_sized_full bs blocks :
  1 ≤ bs → well_sized bs blocks →
  length (concat blocks) `mod` bs = 0 →
  Forall (λ blk, length blk = bs) blocks.
Proof.
  intros Hbs. induction blocks as [|blk rest IH]; [constructor|].
  destruct rest as [|blk' rest].
  - simpl. rewrite app_nil_r. intros [Hlo Hhi] Hmod. constructor; [|constructor].
    destruct (decide (length blk = bs)) as [|Hne]; [done|].
    rewrite Nat.mod_small in Hmod by lia. lia.
  - intros [Hlen Hrest] Hmod. constructor; [done|]. apply IH; [done|].
    change (concat (blk :: blk' :: rest)) with (blk ++ concat (blk' :: rest)) in Hmod.
    rewrite length_app, Hlen in Hmod.
    rewrite <-Hmod at 1.
    replace (bs + length (concat (blk' :: rest)))
      with (length (concat (blk' :: rest)) + 1 * bs) by lia.
    by rewrite Nat.Div0.mod_add.
Qed.

Lemma BLOCK_SIZE_pos : 1 ≤ BLOCK_SIZE.
Proof. unfold BLOCK_SIZE. lia. Qed.

(** C2.  Every block that [generate_content] yields, except possibly the
    last, holds exactly [BLOCK_SIZE] rows; the last holds between 1 and
    [BLOCK_SIZE] rows; an empty block is never yielded, so when the rows
    fill the blocks exactly no final block follows. *)
Theorem generate_content_block_sizes {registry : TransformRegistry}
    (fd : list bytes) (headers : list str) (table : Table) :
  let blocks := yielded (generate_content fd headers table) in
  Forall (λ blk, 1 ≤ length blk ≤ BLOCK_SIZE) blocks
  ∧ (∀ init last, blocks = init ++ [last] →
       Forall (λ blk, length blk = BLOCK_SIZE) init)
  ∧ (length (concat blocks) `mod` BLOCK_SIZE = 0 →
       Forall (λ blk, length blk = BLOCK_SIZE) blocks).
Proof.
  intros blocks.
  assert (well_sized BLOCK_SIZE blocks) as Hw.
  { apply gen_loop_well_sized; [apply BLOCK_SIZE_pos|]. simpl. apply BLOCK_SIZE_pos. }
  split; [|split].
  - apply well_sized_bounds; [apply BLOCK_SIZE_pos|done].
  - intros init last. by apply well_sized_init.
  - by apply well_sized_full; [apply BLOCK_SIZE_pos|].
Qed.

Lemma block_sizes_on_scenario :
  let blocks :=
    yielded (generate_content (registry:=no_registry)
               [tsv_line ["1"; "Alice"]; tsv_line ["2"; "\N"];
                tsv_line ["bad"; "line"; "extra"]]
               people_headers people_table) in
  Forall (λ blk, 1 ≤ length blk ≤ BLOCK_SIZE) blocks
  ∧ (∀ init last, blocks = init ++ [last] →
       Forall (λ blk, length blk = BLOCK_SIZE) init)
  ∧ (length (concat blocks) `mod` BLOCK_SIZE = 0 →
       Forall (λ blk, length blk = BLOCK_SIZE) blocks).
Proof.
  apply (generate_content_block_sizes (registry:=no_registry)).
Defined.

(** The scenario of the specification: with a block size of 2, four valid
    data rows come out as two blocks of two rows and no trailing block. *)
Example block_size_two_four_rows :
  length <$> yielded (generate_content_sized (registry:=no_registry) 2
                        [tsv_line ["1"; "Ann"]; tsv_line ["2"; "Bob"];
                         tsv_line ["3"; "Cy"]; tsv_line ["4"; "Di"]]
                        people_headers people_table)
  = [2; 2].
Proof. vm_compute. reflexivity. Qed.

Lemma line_raises_iff {registry : TransformRegistry} headers table line :
  is_Some (decode_utf8 line) →
  (∀ s_line, fields_of line = Ok s_line → length s_line = length headers →
     ∃ info, apply_transforms (map_to_list (data_transf_of (name table)))
                              (make_info headers s_line) = Ok info) →
  ¬ line_raises headers (data_transf_of (name table)) line.
Proof.
  intros [text Htext] Htr [e He]. unfold process_line in He.
  unfold fields_of, decode in *. rewrite Htext in *.
  destruct (decide _) as [|Hlen]; [done|]. apply dec_stable in Hlen.
  destruct (Htr _ eq_refl Hlen) as [info Hinfo]. by rewrite Hinfo in He.
Qed.

(** C1, as amended.  On a stream in which every line is UTF-8 text and on
    whose rows no registered transform raises, [generate_content] runs to
    the end of the stream without raising, and the rows of all the blocks
    it yields are as many as the data lines whose field count (after
    decoding, stripping and splitting on tab) matches the header count. *)
Theorem generate_content_row_count {registry : TransformRegistry}
    (fd : list bytes) (headers : list str) (table : Table) :
  conforming fd →
  transforms_succeed headers table fd →
  raised (generate_content fd headers table) = None
  ∧ total_rows (generate_content fd headers table) = matching_lines headers fd.
Proof.
  intros Hconf Htr.
  assert (Forall (λ line, ¬ line_raises headers (data_transf_of (name table)) line) fd)
    as Hok.
  { unfold conforming, transforms_succeed in *.
    rewrite Forall_forall in *. intros line Hin.
    apply line_raises_iff; [by apply Hconf|by apply Htr]. }
  pose proof (gen_loop_finishes BLOCK_SIZE _ _ _ [] Hok) as Hfin.
  split; [done|].
  unfold total_rows, matching_lines, generate_content, generate_content_sized.
  rewrite gen_loop_rows by done. simpl. by apply rows_count.
Qed.

Lemma row_count_on_scenario :
  raised (generate_content (registry:=people_registry)
            [tsv_line ["1"; "Alice"]; tsv_line ["2"; "\N"];
             tsv_line ["bad"; "line"; "extra"]] people_headers people_table)
  = None
  ∧ total_rows (generate_content (registry:=people_registry)
                  [tsv_line ["1"; "Alice"]; tsv_line ["2"; "\N"];
                   tsv_line ["bad"; "line"; "extra"]]
                  people_headers people_table)
    = matching_lines people_headers
        [tsv_line ["1"; "Alice"]; tsv_line ["2"; "\N"];
         tsv_line ["bad"; "line"; "extra"]].
Proof.
  apply generate_content_row_count.
  - repeat constructor; vm_compute; eauto.
  - repeat constructor; intros s_line Hs Hlen; vm_compute in Hs;
      injection Hs as <-; try discriminate Hlen; vm_compute; eauto.
Defined.

(** C1 as it was stated fails: the stream below conforms to the layout and
    its one data line has the header's field count, but the transform
    registered for [id] raises on it, so the generator raises and yields
    no row at all. *)
Lemma row_count_breaks_on_raising_transform :
  conforming [tsv_line ["x"; "Alice"]]
  ∧ generate_content (registry:=people_registry)
      [tsv_line ["x"; "Alice"]] people_headers people_table
    = Fail (ValueError "invalid literal for int() with base 10")
  ∧ total_rows (generate_content (registry:=people_registry)
                  [tsv_line ["x"; "Alice"]] people_headers people_table) = 0
  ∧ matching_lines people_headers [tsv_line ["x"; "Alice"]] = 1.
Proof.
  split; [|by vm_compute]. repeat constructor. vm_compute. eauto.
Qed.

(** C4.  A data line whose field count differs from the header's leaves no
    trace: the generator yields the same blocks and ends the same way as
    on the stream without the line, and so [import_file] leaves the same
    database, the same log and the same count, and raises nothing. *)
Theorem mismatched_line_dropped {registry : TransformRegistry}
    (fd1 fd2 : list bytes) (line : bytes) (s_line headers : list str)
    (table : Table) :
  fields_of line = Ok s_line →
  length s_line ≠ length headers →
  generate_content (fd1 ++ line :: fd2) headers table
  = generate_content (fd1 ++ fd2) headers table
  ∧ ∀ DB (engine : Engine DB) (fn : str) (first : bytes) (w : world DB),
      fields_of first = Ok headers →
      import_file (GzFile fn (first :: fd1 ++ line :: fd2)) w
      = import_file (GzFile fn (first :: fd1 ++ fd2)) w.
Proof.
  intros Hf Hlen.
  assert (∀ dt, process_line headers dt line = Skipped) as Hskip.
  { intros dt. by eapply process_line_skipped. }
  split.
  - unfold generate_content, generate_content_sized. by apply gen_loop_skip.
  - intros DB engine fn first w Hfirst.
    unfold import_file, import_file_sized, import_file_setup, build_table,
      bind, lift, ret, logging, on_db, on_metadata, readline,
      generate_content_sized.
    simpl. unfold fields_of in Hfirst.
    destruct (connect (w_db w)) as [db1 [[]|e]]; [|done].
    destruct (decode first) as [text|e]; [|done]. injection Hfirst as Hh.
    rewrite Hh. simpl.
    destruct (sqlalchemy_Table _ _ _) as [metadata [table'|e]]; [|done]. simpl.
    destruct (create_all table' db1) as [db2 [[]|e]]; [|done].
    by rewrite gen_loop_skip.
Qed.

Lemma extra_field_line_dropped :
  generate_content (registry:=no_registry)
    ([tsv_line ["1"; "Alice"]] ++ tsv_line ["bad"; "line"; "extra"]
       :: [tsv_line ["2"; "\N"]]) people_headers people_table
  = generate_content (registry:=no_registry)
      ([tsv_line ["1"; "Alice"]] ++ [tsv_line ["2"; "\N"]])
      people_headers people_table
  ∧ ∀ DB (engine : Engine DB) (fn : str) (first : bytes) (w : world DB),
      fields_of first = Ok people_headers →
      import_file (registry:=no_registry)
        (GzFile fn (first :: [tsv_line ["1"; "Alice"]]
                      ++ tsv_line ["bad"; "line"; "extra"]
                      :: [tsv_line ["2"; "\N"]])) w
      = import_file (registry:=no_registry)
          (GzFile fn (first :: [tsv_line ["1"; "Alice"]]
                        ++ [tsv_line ["2"; "\N"]])) w.
Proof.
  apply (mismatched_line_dropped (registry:=no_registry)
           [tsv_line ["1"; "Alice"]] [tsv_line ["2"; "\N"]]
           (tsv_line ["bad"; "line"; "extra"])
           [u "bad"; u "line"; u "extra"]).
  - vm_compute. reflexivity.
  - vm_compute. lia.
Defined.

(* ===================================================================== *)
(** * Properties of the rows *)
(* ===================================================================== *)

Lemma foldl_insert_is_Some {V} (pairs : list (str * V)) (d : gmap str V) key :
  is_Some (foldl (λ d kv, <[kv.1 := kv.2]> d) d pairs !! key)
  ↔ key ∈ pairs.*1 ∨ is_Some (d !! key).
Proof.
  revert d. induction pairs as [|[k v] pairs IH]; intros d; simpl.
  - split; [by right|]. intros [Hin|?]; [|done]. by apply elem_of_nil in Hin.
  - rewrite IH, elem_of_cons. simpl. destruct (decide (k = key)) as [->|Hne].
    + rewrite lookup_insert_eq. split; [intros _; by left; left|eauto].
    + rewrite lookup_insert_ne by done.
      split; [intros [?|?]; eauto|intros [[?|?]|?]; eauto; congruence].
Qed.

Lemma make_info_is_Some headers s_line key :
  length s_line = length headers →
  is_Some (make_info headers s_line !! key) ↔ key ∈ headers.
Proof.
  intros Hlen. unfold make_info, py_dict.
  rewrite foldl_insert_is_Some, lookup_empty.
  rewrite fst_zip by (rewrite length_fmap; lia).
  split; [intros [?|[? ?]]; done|by left].
Qed.


Lemma line_row_inv headers dt line info :
  line_row headers dt line = Some info →
  ∃ s_line, fields_of line = Ok s_line ∧ length s_line = length headers
            ∧ apply_transforms (map_to_list dt) (make_info headers s_line) = Ok info.
Proof.
  unfold line_row, process_line. destruct (fields_of line) as [s_line|e]; [|done].
  destruct (decide _) as [|Hlen]; [done|]. apply dec_stable in Hlen.
  destruct (apply_transforms _ _) as [r|e] eqn:Hr; [|done].
  intros [= ->]. by exists s_line.
Qed.

(** C3, as amended.  Take a data line whose field count matches the header
    count and a field of it whose header name is not repeated further on
    in the header.  The row built from the line (before the transforms)
    maps that header to [None] when the field is exactly [\N] and to the
    field's own string otherwise, so an empty field stays the empty string,
    which is not [None].  The emitted row holds that same value when no
    transform is registered for the column, and the transform's result on
    that value when one is. *)
Theorem null_sentinel_becomes_none {registry : TransformRegistry}
    (headers : list str) (table : Table) (line : bytes) (s_line : list str)
    (info : row) (i : nat) (h x : str) :
  fields_of line = Ok s_line →
  line_row headers (data_transf_of (name table)) line = Some info →
  headers !! i = Some h →
  s_line !! i = Some x →
  (∀ j, i < j → headers !! j ≠ Some h) →
  let v := if decide (x = u "\N") then VNone else VStr x in
  make_info headers s_line !! h = Some v
  ∧ match registered_transform (name table) h with
    | None => info !! h = Some v
    | Some f => ∃ v', f v = Ok v' ∧ info !! h = Some v'
    end
  ∧ (v = VNone ↔ x = u "\N")
  ∧ (x = [] → v = VStr [] ∧ v ≠ VNone).
Proof.
  intros Hf Hrow Hh Hx Hlast v.
  pose proof (make_info_lookup _ _ _ _ _ Hh Hx Hlast) as Hinfo.
  fold v in Hinfo. change (null_to_none x) with v in Hinfo.
  apply line_row_inv in Hrow as (s_line' & Hf' & _ & Happ).
  rewrite Hf in Hf'. injection Hf' as <-.
  pose proof (apply_transforms_map _ _ _ h Happ) as Hemit.
  rewrite data_transf_of_lookup, Hinfo in Hemit.
  split; [done|]. split; [|split].
  - destruct (registered_transform (name table) h); [done|by rewrite Hemit].
  - unfold v. destruct (decide (x = u "\N")); split; done.
  - intros ->. unfold v. by rewrite decide_False.
Qed.

Lemma null_field_in_people_row :
  let v := if decide (u "\N" = u "\N") then VNone else VStr (u "\N") in
  make_info people_headers [u "2"; u "\N"] !! u "name" = Some v
  ∧ match registered_transform (registry:=people_registry)
            (name people_table) (u "name") with
    | None => ({[ u "id" := VInt 2; u "name" := VNone ]} : row) !! u "name" = Some v
    | Some f => ∃ v', f v = Ok v'
                      ∧ ({[ u "id" := VInt 2; u "name" := VNone ]} : row) !! u "name"
                        = Some v'
    end
  ∧ (v = VNone ↔ u "\N" = u "\N")
  ∧ (u "\N" = [] → v = VStr [] ∧ v ≠ VNone).
Proof.
  apply (null_sentinel_becomes_none (registry:=people_registry)
           people_headers people_table (tsv_line ["2"; "\N"])
           [u "2"; u "\N"] _ 1 (u "name") (u "\N")).
  - vm_compute. reflexivity.
  - vm_compute. reflexivity.
  - vm_compute. reflexivity.
  - vm_compute. reflexivity.
  - intros [|[|j]] Hj; vm_compute; try discriminate; lia.
Defined.

(** C3 as it was stated fails on a column with a registered transform: the
    field of [adult] is exactly [\N], yet the emitted row holds [False]
    for it, not [None]. *)
Lemma null_field_transformed_to_false :
  fields_of (tsv_line ["2"; "\N"]) = Ok [u "2"; u "\N"]
  ∧ yielded (generate_content (registry:=people_registry)
               [tsv_line ["2"; "\N"]] [u "id"; u "adult"] people_table)
    = [[ ({[ u "id" := VInt 2; u "adult" := VBool false ]} : row) ]].
Proof. split; vm_compute; reflexivity. Qed.

(** A header name that comes twice keeps the later field only. *)
Example repeated_header_keeps_last :
  yielded (generate_content (registry:=no_registry)
             [tsv_line ["\N"; "x"]] [u "a"; u "a"] people_table)
  = [[ ({[ u "a" := VStr (u "x") ]} : row) ]].
Proof. vm_compute. reflexivity. Qed.



(** C10.  A data line that ends in a tab before its line terminator (its
    last field is empty) and that has, as written, the header's number of
    tab-separated fields, loses the trailing field to [strip]: it splits
    into fewer fields than the header has, so the generator drops it. *)
Theorem trailing_empty_field_dropped {registry : TransformRegistry}
    (fd1 fd2 : list bytes) (line : bytes) (body eol : str)
    (headers : list str) (table : Table) :
  decode_utf8 line = Some (body ++ TAB :: eol) →
  Forall (λ c, isspace c = true) eol →
  length (split TAB (body ++ TAB :: eol)) = length headers →
  (∃ s_line, fields_of line = Ok s_line ∧ length s_line < length headers)
  ∧ matches_header headers line = false
  ∧ generate_content (fd1 ++ line :: fd2) headers table
    = generate_content (fd1 ++ fd2) headers table.
Proof.
  intros Hdec Heol Hcount.
  pose proof (strip_trailing_tab body eol Heol) as Hlt. rewrite Hcount in Hlt.
  assert (fields_of line = Ok (split TAB (strip (body ++ TAB :: eol)))) as Hf.
  { unfold fields_of, decode. by rewrite Hdec. }
  split; [eauto|]. split.
  - unfold matches_header. rewrite Hf. apply bool_decide_eq_false. lia.
  - unfold generate_content, generate_content_sized. apply gen_loop_skip.
    eapply process_line_skipped; [done|lia].
Qed.

Lemma trailing_tab_line_dropped :
  (∃ s_line, fields_of (tsv_line ["3"; ""]) = Ok s_line
             ∧ length s_line < length people_headers)
  ∧ matches_header people_headers (tsv_line ["3"; ""]) = false
  ∧ generate_content (registry:=no_registry)
      ([tsv_line ["1"; "Alice"]] ++ tsv_line ["3"; ""] :: [tsv_line ["2"; "Bob"]])
      people_headers people_table
    = generate_content (registry:=no_registry)
        ([tsv_line ["1"; "Alice"]] ++ [tsv_line ["2"; "Bob"]])
        people_headers people_table.
Proof.
  apply (trailing_empty_field_dropped (registry:=no_registry)
           [tsv_line ["1"; "Alice"]] [tsv_line ["2"; "Bob"]]
           (tsv_line ["3"; ""]) (u "3") [10%N]).
  - vm_compute. reflexivity.
  - repeat constructor.
  - vm_compute. reflexivity.
Defined.

(* ===================================================================== *)
(** * Properties of [build_table] *)
(* ===================================================================== *)

Lemma contains_occurs old s : occurs old s → contains old s = true.
Proof.
  assert (∀ t, contains old t
              = starts_with old t
                || match t with [] => false | _ :: t' => contains old t' end) as Hunfold.
  { by intros []. }
  intros (pre & post & ->). induction pre as [|c pre IH].
  - rewrite Hunfold, app_nil_l. by rewrite starts_with_app.
  - rewrite Hunfold. change ((c :: pre) ++ old ++ post) with (c :: (pre ++ old ++ post)).
    cbv beta iota. rewrite IH. apply orb_true_r.
Qed.

Lemma not_contains_not_occurs old s : contains old s = false → ¬ occurs old s.
Proof. intros Hc Ho%contains_occurs. congruence. Qed.

(** C6, as amended.  The table name is the file name with every occurrence
    of [.tsv.gz] taken out, scanning from the left, and every dot that is
    left replaced by an underscore: up to the first occurrence only dots
    change, the occurrence goes, and the rest is treated the same way.
    For a file name that ends in [.tsv.gz] and holds no other occurrence
    of it this is the name without the suffix and with its dots replaced;
    [title_basics.tsv.gz] gives [title_basics]. *)
Theorem table_name_of_file (pre post : str) :
  contains TSV_EXT pre = false →
  table_name_of (pre ++ TSV_EXT ++ post)
  = dots_to_underscores pre ++ table_name_of post
  ∧ table_name_of pre = dots_to_underscores pre
  ∧ table_name_of (pre ++ TSV_EXT) = spec_table_name (pre ++ TSV_EXT)
  ∧ table_name_of (u "title_basics.tsv.gz") = u "title_basics".
Proof.
  intros Hocc%not_contains_not_occurs. split; [|split; [|split]].
  - by apply table_name_of_occurrence.
  - by rewrite table_name_of_eq, replace_no_occurrence.
  - rewrite spec_table_name_suffix.
    rewrite <-(app_nil_r TSV_EXT), table_name_of_occurrence by done.
    apply app_nil_r.
  - vm_compute. reflexivity.
Qed.

Lemma table_name_of_title_basics :
  table_name_of (u "title.basics" ++ TSV_EXT ++ u ".bak")
  = dots_to_underscores (u "title.basics") ++ table_name_of (u ".bak")
  ∧ table_name_of (u "title.basics") = dots_to_underscores (u "title.basics")
  ∧ table_name_of (u "title.basics" ++ TSV_EXT)
    = spec_table_name (u "title.basics" ++ TSV_EXT)
  ∧ table_name_of (u "title_basics.tsv.gz") = u "title_basics".
Proof.
  apply (table_name_of_file (u "title.basics") (u ".bak")).
  vm_compute. reflexivity.
Defined.

(** C6 as it was stated fails on a file name that holds [.tsv.gz] twice:
    the code takes out both, where removing the suffix leaves the first. *)
Lemma table_name_of_doubled_suffix :
  table_name_of (u "a.tsv.gz.tsv.gz") = u "a"
  ∧ spec_table_name (u "a.tsv.gz.tsv.gz") = u "a_tsv_gz"
  ∧ table_name_of (u "a.tsv.gz.tsv.gz") ≠ spec_table_name (u "a.tsv.gz.tsv.gz").
Proof. split; [|split]; vm_compute; [reflexivity|reflexivity|discriminate]. Qed.

Lemma col_type_of_registry {registry : TransformRegistry} table_name header :
  col_type_of (default ∅ (DB_TRANSFORM !! table_name)) header
  = default UnicodeText (registry_type table_name header).
Proof.
  unfold col_type_of, registry_type.
  destruct (DB_TRANSFORM !! table_name) as [table_map|]; simpl.
  - by destruct (table_map !! header).
  - by rewrite lookup_empty.
Qed.

Section table_facts.
Context {registry : TransformRegistry}.
Implicit Types (cols new : list Column) (l acc : list str).

Lemma table_columns_registry fn headers :
  table_columns fn headers = registry_column (table_name_of fn) <$> headers.
Proof.
  unfold table_columns, build_columns. apply list_fmap_ext.
  intros _ header _. unfold registry_column. f_equal. apply col_type_of_registry.
Qed.

Lemma first_occurrences_NoDup l : NoDup l → first_occurrences l = l.
Proof.
  induction 1 as [|h l Hh _ IH]; [done|]. simpl. rewrite IH. f_equal.
  clear IH. induction l as [|x l IH]; [done|].
  apply not_elem_of_cons in Hh as [Hne Hh].
  rewrite filter_cons, decide_True by done. by rewrite IH.
Qed.

Lemma first_occurrences_nil l : first_occurrences l = [] → l = [].
Proof. by destruct l. Qed.

(** A column is refused only for its blank name. *)
Lemma attach_columns_raises cols new e :
  attach_columns cols new = Raise e →
  e = blank_column_name ∧ ∃ c, c ∈ new ∧ col_name c = [].
Proof.
  revert cols. induction new as [|c new IH]; intros cols; simpl; [done|].
  unfold append_column. destruct (col_name c) as [|x name] eqn:Hc.
  - intros [= <-]. split; [done|]. exists c. split; [by left|done].
  - destruct (bool_decide _); intros (-> & c' & Hin & Hc')%IH;
      (split; [done|]); exists c'; (split; [by right|done]).
Qed.

Lemma attach_columns_blank (f : str → Column) cols l :
  (∀ h, col_name (f h) = h) → [] ∈ l →
  attach_columns cols (f <$> l) = Raise blank_column_name.
Proof.
  intros Hf Hin. revert cols. induction l as [|h l IH]; intros cols.
  { by apply elem_of_nil in Hin. }
  simpl. unfold append_column. rewrite Hf.
  destruct h as [|x h]; [done|].
  apply elem_of_cons in Hin as [Hin|Hin]; [done|].
  destruct (bool_decide _); by apply IH.
Qed.

Lemma attach_columns_names (f : str → Column) acc l :
  (∀ h, col_name (f h) = h) → Forall (λ h, h ≠ []) l →
  attach_columns (f <$> acc) (f <$> l)
  = Ok (f <$> (acc ++ filter (λ h, h ∉ acc) (first_occurrences l))).
Proof.
  intros Hf Hl. revert acc. induction Hl as [|h l Hh _ IH]; intros acc.
  { simpl. by rewrite app_nil_r. }
  simpl. unfold append_column. rewrite Hf.
  destruct h as [|x h]; [done|]. set (k := x :: h) in *.
  assert (col_name <$> (f <$> acc) = acc) as Hnames.
  { rewrite <-list_fmap_compose. rewrite <-(list_fmap_id acc) at 2.
    apply list_fmap_ext. intros _ y _. apply Hf. }
  rewrite Hnames. rewrite filter_cons.
  destruct (decide (k ∈ acc)) as [Hin|Hnin].
  - rewrite bool_decide_eq_true_2 by done. rewrite decide_False by (by intros Hn).
    assert ((λ c', if decide (col_name c' = k) then f k else c') <$> (f <$> acc)
            = f <$> acc) as ->.
    { rewrite <-list_fmap_compose. apply list_fmap_ext. intros _ y _. simpl.
      rewrite Hf. by destruct (decide (y = k)) as [->|]. }
    rewrite IH. do 3 f_equal. rewrite list_filter_filter.
    apply list_filter_iff. intros y. split; [|by intros []].
    intros Hy. split; [done|]. by intros ->.
  - rewrite bool_decide_eq_false_2 by done. rewrite decide_True by done.
    replace ((f <$> acc) ++ [f k]) with (f <$> (acc ++ [k])) by (by rewrite fmap_app).
    rewrite IH. rewrite <-app_assoc. simpl. do 4 f_equal.
    rewrite list_filter_filter. apply list_filter_iff. intros y.
    rewrite elem_of_app, list_elem_of_singleton. split.
    + intros Hy. split; intros ?; apply Hy; eauto.
    + intros [Hy1 Hy2] [?|?]; done.
Qed.

(** What [build_table] does, case by case. *)
Lemma build_table_outcome {DB : Type} fn headers (w : world DB) :
  build_table fn headers w
  = match w_metadata w !! table_name_of fn with
    | Some table =>
      (World (w_db w) (w_log w ++ [LogBuildingTable fn]) (w_metadata w),
       match headers with
       | [] => Ok table
       | _ => Raise already_defined
       end)
    | None =>
      if bool_decide ([] ∈ headers)
      then (World (w_db w) (w_log w ++ [LogBuildingTable fn]) (w_metadata w),
            Raise blank_column_name)
      else
        let table :=
          mkTable (table_name_of fn)
            (registry_column (table_name_of fn) <$> first_occurrences headers) in
        (World (w_db w) (w_log w ++ [LogBuildingTable fn])
               (<[table_name_of fn := table]> (w_metadata w)),
         Ok table)
    end.
Proof.
  unfold build_table, bind, logging, on_metadata, sqlalchemy_Table. simpl.
  rewrite table_columns_registry.
  destruct (w_metadata w !! table_name_of fn) as [table|].
  { by destruct headers. }
  destruct (decide ([] ∈ headers)) as [Hin|Hnin].
  - rewrite bool_decide_eq_true_2 by done.
    by rewrite (attach_columns_blank (registry_column (table_name_of fn)) []).
  - rewrite bool_decide_eq_false_2 by done.
    pose proof (attach_columns_names (registry_column (table_name_of fn)) []
                  headers (λ _, eq_refl)) as Hattach.
    simpl in Hattach. rewrite Hattach.
    + assert (∀ X : list str, filter (λ h : str, h ∉ []) X = X) as Hall.
      { induction X as [|y X IHX]; [done|].
        rewrite filter_cons, decide_True by apply not_elem_of_nil.
        by rewrite IHX. }
      by rewrite Hall.
    + apply Forall_forall. intros h Hh ->. done.
Qed.

End table_facts.




Example build_table_people :
  (build_table (registry:=people_registry) (u "people.tsv.gz")
     [u "id"; u "name"; u "adult"] empty_world).2
  = Ok (mkTable (u "people")
          [mkColumn (u "id") Integer; mkColumn (u "name") UnicodeText;
           mkColumn (u "adult") Boolean]).
Proof. vm_compute. reflexivity. Qed.

(** A header name that is empty is refused, and so is a table name that
    [metadata] holds already. *)
Example build_table_refusals :
  (build_table (registry:=people_registry) (u "people.tsv.gz")
     [u "id"; []] empty_world).2
  = Raise blank_column_name
  ∧ (build_table (registry:=people_registry) (u "people.tsv.gz") [u "id"]
       (World ([] : mem_db) []
          {[ u "people" := mkTable (u "people") [] ]})).2
    = Raise already_defined.
Proof. split; vm_compute; reflexivity. Qed.

(* ===================================================================== *)
(** * Properties of the importers *)
(* ===================================================================== *)

Section importers_facts.
Context {registry : TransformRegistry} {DB : Type} {engine : Engine DB}.
Implicit Types (w : world DB) (gen : run (list row)) (vars : locals).

(** The loop writes nothing to the log, leaves [metadata] alone and never
    lowers the count. *)
Lemma for_blocks_log table gen vars w w' vars' err :
  for_blocks table gen vars w = (w', (vars', err)) →
  w_log w' = w_log w ∧ w_metadata w' = w_metadata w ∧ count vars ≤ count vars'.
Proof.
  revert vars w. induction gen as [|e|blk rest IH]; intros vars w; simpl.
  - by intros [= <- <- <-].
  - by intros [= <- <- <-].
  - unfold on_db. destruct (execute table blk (w_db w)) as [db [[]|e]]; simpl.
    + intros (Hlog & Hmd & Hcount)%IH. simpl in *. split; [done|]. split; [done|lia].
    + by intros [= <- <- <-].
Qed.

(** The [try] statement never raises: it logs what the loop raised and
    goes on. *)
Lemma try_blocks_returns table gen vars w :
  ∃ w' vars' err,
    for_blocks table gen vars w = (w', (vars', err))
    ∧ try_blocks table gen vars w
      = (World (w_db w')
               (w_log w ++ match err with
                           | Some e => [LogEntriesLost (length (block vars')) e]
                           | None => []
                           end)
               (w_metadata w),
         Ok vars').
Proof.
  unfold try_blocks.
  destruct (for_blocks table gen vars w) as [w' [vars' [e|]]] eqn:Hloop;
    exists w', vars'; eexists; (split; [done|]);
    apply for_blocks_log in Hloop as (Hlog & Hmd & _).
  - unfold bind, logging, ret. simpl. by rewrite Hlog, Hmd.
  - rewrite app_nil_r, <-Hlog, <-Hmd. by destruct w'.
Qed.

(** Once the set-up of a file has gone through, [import_file] returns
    normally whatever the blocks do, and the last thing it logs is the
    summary line with the count. *)
Lemma import_file_after_setup bs f w w1 gz_file headers table :
  import_file_setup f w = (w1, Ok (gz_file, headers, table)) →
  ∃ w2 vars err,
    for_blocks table (generate_content_sized bs gz_file headers table)
               (Locals [] 0) w1 = (w2, (vars, err))
    ∧ import_file_sized bs f w
      = (World (w_db w2)
               (w_log w1
                ++ match err with
                   | Some e => [LogEntriesLost (length (block vars)) e]
                   | None => []
                   end
                ++ [LogEnd (gz_path f) (count vars)])
               (w_metadata w1),
         Ok tt).
Proof.
  intros Hsetup. unfold import_file_sized, bind. rewrite Hsetup.
  destruct (try_blocks_returns table
              (generate_content_sized bs gz_file headers table) (Locals [] 0) w1)
    as (w2 & vars & err & Hloop & Htry).
  exists w2, vars, err. split; [done|]. rewrite Htry.
  unfold logging. simpl. by rewrite <-app_assoc.
Qed.

(** What [import_file] raises is what its set-up raised. *)
Lemma import_file_raises bs f w w' e :
  import_file_sized bs f w = (w', Raise e) →
  import_file_setup f w = (w', Raise e).
Proof.
  destruct (import_file_setup f w) as [w1 [[[gz_file headers] table]|e1]] eqn:Hsetup.
  - destruct (import_file_after_setup bs _ _ _ _ _ _ Hsetup)
      as (w2 & vars & err & _ & Himp).
    rewrite Himp. discriminate.
  - unfold import_file_sized. unfold bind at 1. rewrite Hsetup.
    by intros [= -> ->].
Qed.

(** An exception reaches [import_dir] only from the set-up of a file. *)
Lemma import_entries_raises bs entries w w' e :
  import_entries bs entries w = (w', Raise e) →
  ∃ entry w0,
    entry ∈ entries ∧ entry_isfile entry = true
    ∧ import_file_setup (GzFile (entry_name entry) (entry_lines entry)) w0
      = (w', Raise e).
Proof.
  revert w. induction entries as [|entry entries IH]; intros w; simpl; [done|].
  destruct (entry_isfile entry) eqn:Hfile; simpl; unfold bind.
  - destruct (import_file_sized bs _ w) as [w1 [[]|e1]] eqn:Himp.
    + intros (entry' & w0 & Hin & Hrest)%IH.
      exists entry', w0. split; [by right|done].
    + intros [= <- <-]. apply import_file_raises in Himp.
      exists entry, w. split; [by left|done].
  - unfold logging. simpl.
    intros (entry' & w0 & Hin & Hrest)%IH.
    exists entry', w0. split; [by right|done].
Qed.

(** When every insert goes through, the loop leaves in [block] the last
    block the generator yielded and in [count] the rows of all of them,
    and ends with what the generator ended with.  So if the generator
    raised, the handler of line 121 reports the length of a block that was
    inserted and counted (or of the initial [[]]), whatever rows the
    generator was holding. *)
Lemma for_blocks_all_inserted table gen vars w :
  inserts_succeed table (yielded gen) (w_db w) →
  for_blocks table gen vars w
  = (World (insert_all table (yielded gen) (w_db w)) (w_log w) (w_metadata w),
     (Locals (default (block vars) (last (yielded gen)))
             (count vars + total_rows gen),
      raised gen)).
Proof.
  revert vars w. induction gen as [|e|blk rest IH]; intros vars w Hins.
  - simpl. unfold total_rows. simpl. rewrite Nat.add_0_r. by destruct vars, w.
  - simpl. unfold total_rows. simpl. rewrite Nat.add_0_r. by destruct vars, w.
  - simpl in *. unfold on_db. destruct Hins as [Hblk Hins].
    destruct (execute table blk (w_db w)) as [db [[]|e]]; [|done]. simpl in *.
    rewrite IH by done. simpl. do 3 f_equal.
    + rewrite last_cons. by destruct (last (yielded rest)).
    + unfold total_rows. simpl. rewrite length_app. lia.
Qed.

End importers_facts.

(** C7, at its failing input.  The file holds a header, one good data line
    and a line that is not UTF-8.  The generator has buffered the row of
    the good line when it raises on the bad one; the row is lost, nothing
    is inserted, and the diagnostic reads "0 entries lost".  With a block
    size of 2 and two good lines before the bad one, the block of two is
    inserted and counted, the generator then raises with an empty buffer,
    and the diagnostic reads "2 entries lost" for rows that are in the
    database. *)
Theorem entries_lost_after_generator_failure :
  line_row people_headers (data_transf_of (registry:=no_registry) (u "people"))
           (tsv_line ["1"; "Alice"])
  = Some ({[ u "id" := VStr (u "1"); u "name" := VStr (u "Alice") ]} : row)
  ∧ generate_content (registry:=no_registry)
      [tsv_line ["1"; "Alice"]; bad_utf8_line] people_headers
      (mkTable (u "people") [])
    = Fail UnicodeDecodeError
  ∧ import_file (registry:=no_registry)
      (GzFile (u "d/people.tsv.gz")
         [tsv_line ["id"; "name"]; tsv_line ["1"; "Alice"]; bad_utf8_line])
      empty_world
    = (World []
         [LogBegin (u "d/people.tsv.gz");
          LogBuildingTable (u "people.tsv.gz");
          LogEntriesLost 0 UnicodeDecodeError;
          LogEnd (u "d/people.tsv.gz") 0]
         {[ u "people" := plain_people_table ]},
       Ok tt)
  ∧ import_file_sized (registry:=no_registry) 2
      (GzFile (u "d/people.tsv.gz")
         [tsv_line ["id"; "name"]; tsv_line ["1"; "Alice"];
          tsv_line ["2"; "Bob"]; bad_utf8_line])
      empty_world
    = (World
         [(u "people",
           ({[ u "id" := VStr (u "1"); u "name" := VStr (u "Alice") ]} : row));
          (u "people",
           ({[ u "id" := VStr (u "2"); u "name" := VStr (u "Bob") ]} : row))]
         [LogBegin (u "d/people.tsv.gz");
          LogBuildingTable (u "people.tsv.gz");
          LogEntriesLost 2 UnicodeDecodeError;
          LogEnd (u "d/people.tsv.gz") 2]
         {[ u "people" := plain_people_table ]},
       Ok tt).
Proof. repeat split; vm_compute; reflexivity. Qed.

(** When it is the insert that fails, the diagnostic counts the rows of the
    block that failed: here the second block, of one row, is rejected
    after the first, of two rows, was stored. *)
Example entries_lost_after_insert_failure :
  import_file_sized (registry:=no_registry) 2
    (GzFile (u "d/people.tsv.gz")
       [tsv_line ["id"; "name"]; tsv_line ["1"; "Alice"];
        tsv_line ["2"; "Bob"]; tsv_line ["\N"; "Cy"]; tsv_line ["4"; "Di"];
        tsv_line ["5"; "Ed"]])
    empty_world
  = (World
       [(u "people",
         ({[ u "id" := VStr (u "1"); u "name" := VStr (u "Alice") ]} : row));
        (u "people",
         ({[ u "id" := VStr (u "2"); u "name" := VStr (u "Bob") ]} : row))]
       [LogBegin (u "d/people.tsv.gz");
        LogBuildingTable (u "people.tsv.gz");
        LogEntriesLost 2 (DBAPIError "NOT NULL constraint failed");
        LogEnd (u "d/people.tsv.gz") 2]
       {[ u "people" := plain_people_table ]},
     Ok tt).
Proof. vm_compute. reflexivity. Qed.

(** C8, as amended.  An exception raised while the blocks of a file are
    produced or inserted never reaches [import_dir]: once the set-up of
    the file (connecting, reading and decoding the header line, building
    and creating the table) has gone through, [import_file] returns
    normally, its last log record being the summary line, and
    [import_dir] goes on with the entries that follow.  What [import_dir]
    does raise was raised by the set-up of some file. *)
Theorem block_errors_stay_in_file {registry : TransformRegistry} {DB : Type}
    {engine : Engine DB} (dir_name : str) (listing : list dir_entry)
    (entry : dir_entry) (entries : list dir_entry) (w w1 : world DB)
    (opened : list bytes * list str * Table) :
  glob_tsv dir_name listing = entry :: entries →
  entry_isfile entry = true →
  import_file_setup (GzFile (entry_name entry) (entry_lines entry)) w
  = (w1, Ok opened) →
  (∃ w2 n,
     import_file (GzFile (entry_name entry) (entry_lines entry)) w = (w2, Ok tt)
     ∧ last (w_log w2) = Some (LogEnd (entry_name entry) n)
     ∧ import_dir dir_name listing w = import_entries BLOCK_SIZE entries w2)
  ∧ (∀ w' e, import_dir dir_name listing w = (w', Raise e) →
       ∃ entry' w0,
         entry' ∈ entries ∧ entry_isfile entry' = true
         ∧ import_file_setup
             (GzFile (entry_name entry') (entry_lines entry')) w0
           = (w', Raise e)).
Proof.
  intros Hglob Hfile Hsetup. destruct opened as [[gz_file headers] table].
  destruct (import_file_after_setup BLOCK_SIZE _ _ _ _ _ _ Hsetup)
    as (w2 & vars & err & _ & Himp).
  assert (import_dir dir_name listing w
          = import_entries BLOCK_SIZE entries
              (World (w_db w2)
                 (w_log w1
                  ++ match err with
                     | Some e => [LogEntriesLost (length (block vars)) e]
                     | None => []
                     end ++ [LogEnd (entry_name entry) (count vars)])
                 (w_metadata w1))) as Hdir.
  { unfold import_dir, import_dir_sized. rewrite Hglob. simpl.
    rewrite Hfile. simpl. unfold bind at 1. by rewrite Himp. }
  split.
  - eexists _, (count vars). split; [exact Himp|]. split; [|exact Hdir].
    simpl. by rewrite !app_assoc, last_snoc.
  - intros w' e. rewrite Hdir. apply import_entries_raises.
Qed.

Lemma insert_error_then_next_file :
  (∃ w2 n,
     import_file (registry:=no_registry)
       (GzFile (u "d/people.tsv.gz")
          [tsv_line ["id"; "name"]; tsv_line ["\N"; "Bob"]]) empty_world
     = (w2, Ok tt)
     ∧ last (w_log w2) = Some (LogEnd (u "d/people.tsv.gz") n)
     ∧ import_dir (registry:=no_registry) (u "d")
         [DirEntry (u "people.tsv.gz") true
            [tsv_line ["id"; "name"]; tsv_line ["\N"; "Bob"]];
          DirEntry (u "names.tsv.gz") true
            [tsv_line ["id"; "name"]; tsv_line ["1"; "Alice"]]] empty_world
       = import_entries (registry:=no_registry) BLOCK_SIZE
           [DirEntry (u "d/names.tsv.gz") true
              [tsv_line ["id"; "name"]; tsv_line ["1"; "Alice"]]] w2)
  ∧ (∀ w' e,
       import_dir (registry:=no_registry) (u "d")
         [DirEntry (u "people.tsv.gz") true
            [tsv_line ["id"; "name"]; tsv_line ["\N"; "Bob"]];
          DirEntry (u "names.tsv.gz") true
            [tsv_line ["id"; "name"]; tsv_line ["1"; "Alice"]]] empty_world
       = (w', Raise e) →
       ∃ entry' w0,
         entry' ∈ [DirEntry (u "d/names.tsv.gz") true
                     [tsv_line ["id"; "name"]; tsv_line ["1"; "Alice"]]]
         ∧ entry_isfile entry' = true
         ∧ import_file_setup (registry:=no_registry)
             (GzFile (entry_name entry') (entry_lines entry')) w0
           = (w', Raise e)).
Proof.
  eapply (block_errors_stay_in_file (registry:=no_registry) (u "d")
            [DirEntry (u "people.tsv.gz") true
               [tsv_line ["id"; "name"]; tsv_line ["\N"; "Bob"]];
             DirEntry (u "names.tsv.gz") true
               [tsv_line ["id"; "name"]; tsv_line ["1"; "Alice"]]]
            (DirEntry (u "d/people.tsv.gz") true
               [tsv_line ["id"; "name"]; tsv_line ["\N"; "Bob"]])
            [DirEntry (u "d/names.tsv.gz") true
               [tsv_line ["id"; "name"]; tsv_line ["1"; "Alice"]]]
            empty_world).
  - vm_compute. reflexivity.
  - reflexivity.
  - vm_compute. reflexivity.
Defined.

(** C8 as it was stated fails: the header line of the first file is not
    UTF-8, the exception leaves [import_file] and [import_dir], and the
    second file is never begun. *)
Lemma header_error_stops_import_dir :
  import_dir (registry:=no_registry) (u "d")
    [DirEntry (u "broken.tsv.gz") true [bad_utf8_line];
     DirEntry (u "people.tsv.gz") true
       [tsv_line ["id"; "name"]; tsv_line ["1"; "Alice"]]]
    empty_world
  = (World [] [LogBegin (u "d/broken.tsv.gz")] ∅, Raise UnicodeDecodeError).
Proof. vm_compute. reflexivity. Qed.

(* ===================================================================== *)
(** * Further properties of the script *)
(* ===================================================================== *)

Lemma gen_loop_raise_prefix {registry : TransformRegistry} bs headers dt fd1 line fd2 data e :
  1 ≤ bs → length data < bs →
  Forall (λ l, ¬ line_raises headers dt l) fd1 →
  process_line headers dt line = Raises e →
  raised (gen_loop bs headers dt (fd1 ++ line :: fd2) data) = Some e
  ∧ gen_loop bs headers dt (fd1 ++ line :: fd2) data
    = gen_loop bs headers dt (fd1 ++ [line]) data
  ∧ concat (yielded (gen_loop bs headers dt (fd1 ++ line :: fd2) data))
    = take (bs * ((length data + length (omap (line_row headers dt) fd1)) / bs))
           (data ++ omap (line_row headers dt) fd1).
Proof.
  intros Hbs Hdata Hfd1 Hline. revert data Hdata.
  induction Hfd1 as [|l fd1 Hl _ IH]; intros data Hdata.
  - simpl. rewrite Hline. simpl. split; [done|]. split; [done|].
    rewrite Nat.add_0_r, Nat.div_small by done. by rewrite Nat.mul_0_r.
  - destruct (process_line headers dt l) as [|info|e'] eqn:El.
    + assert (line_row headers dt l = None) as Hlr by (unfold line_row; by rewrite El).
      cbn [app gen_loop omap list_omap]. rewrite El, Hlr. apply IH. done.
    + assert (line_row headers dt l = Some info) as Hlr
        by (unfold line_row; by rewrite El).
      cbn [app gen_loop omap list_omap]. rewrite El, Hlr.
      destruct (Nat.leb_spec bs (length (data ++ [info]))) as [Hle|Hlt].
      * rewrite length_app in Hle. simpl in Hle.
        destruct (IH [] ltac:(simpl; lia)) as (Hr & Heq & Hc).
        cbn [raised yielded concat]. split; [done|]. split; [by rewrite Heq|].
        rewrite Hc. simpl.
        replace (length data + S (length (omap (line_row headers dt) fd1)))
          with (length (omap (line_row headers dt) fd1) + 1 * bs) by lia.
        rewrite Nat.div_add by lia.
        replace (bs * (length (omap (line_row headers dt) fd1) / bs + 1))
          with (length (data ++ [info])
                + bs * (length (omap (line_row headers dt) fd1) / bs))
          by (rewrite length_app; simpl; lia).
        replace (data ++ info :: omap (line_row headers dt) fd1)
          with ((data ++ [info]) ++ omap (line_row headers dt) fd1)
          by (by rewrite <-app_assoc).
        by rewrite take_app_add.
      * rewrite length_app in Hlt. simpl in Hlt.
        destruct (IH (data ++ [info]) ltac:(rewrite length_app; simpl; lia))
          as (Hr & Heq & Hc).
        split; [done|]. split; [done|]. rewrite Hc.
        rewrite length_app, <-app_assoc. simpl. do 3 f_equal. lia.
    + destruct Hl. by exists e'.
Qed.

(** X1.  When [generate_content] runs to the end of the stream, the rows of
    its blocks, read block after block, are the rows of the matching lines
    in the order of the stream: nothing is reordered, repeated or left
    out. *)
Theorem rows_in_stream_order {registry : TransformRegistry}
    (fd : list bytes) (headers : list str) (table : Table) :
  raised (generate_content fd headers table) = None →
  concat (yielded (generate_content fd headers table)) = rows_of headers table fd.
Proof.
  intros Hr. unfold generate_content, generate_content_sized, rows_of in *.
  by rewrite gen_loop_rows.
Qed.

(** X2.  [generate_content] ends at the first line on which it raises (a
    line that is not UTF-8, a transform that raises): the run ends with
    that exception, the lines after it are never read, and what was
    yielded is exactly the full blocks of the rows before it; the rows
    buffered past the last full block are lost. *)
Theorem generator_stops_at_first_raise {registry : TransformRegistry}
    (fd1 fd2 : list bytes) (line : bytes) (headers : list str) (table : Table)
    (e : exn) :
  Forall (λ l, ¬ line_raises headers (data_transf_of (name table)) l) fd1 →
  process_line headers (data_transf_of (name table)) line = Raises e →
  raised (generate_content (fd1 ++ line :: fd2) headers table) = Some e
  ∧ generate_content (fd1 ++ line :: fd2) headers table
    = generate_content (fd1 ++ [line]) headers table
  ∧ concat (yielded (generate_content (fd1 ++ line :: fd2) headers table))
    = take (BLOCK_SIZE * (length (rows_of headers table fd1) / BLOCK_SIZE))
           (rows_of headers table fd1).
Proof.
  intros Hfd1 Hline.
  apply (gen_loop_raise_prefix BLOCK_SIZE _ _ fd1 line fd2 [] e);
    [apply BLOCK_SIZE_pos|apply BLOCK_SIZE_pos|done|done].
Qed.

Lemma well_sized_count bs blocks :
  1 ≤ bs → well_sized bs blocks →
  length blocks = (length (concat blocks) + bs - 1) / bs.
Proof.
  intros Hbs. induction blocks as [|blk rest IH]; intros Hw.
  - simpl. rewrite Nat.div_small; lia.
  - destruct rest as [|blk' rest].
    + simpl in *. rewrite app_nil_r.
      apply (Nat.div_unique _ _ _ (length blk - 1)); lia.
    + destruct Hw as [Hlen Hrest]. specialize (IH Hrest).
      change (length (blk :: blk' :: rest)) with (S (length (blk' :: rest))).
      change (concat (blk :: blk' :: rest)) with (blk ++ concat (blk' :: rest)).
      rewrite length_app, Hlen, IH.
      replace (bs + length (concat (blk' :: rest)) + bs - 1)
        with ((length (concat (blk' :: rest)) + bs - 1) + 1 * bs) by lia.
      rewrite Nat.div_add by lia. lia.
Qed.

Lemma gen_loop_no_raise_inv {registry : TransformRegistry} bs headers dt fd data :
  raised (gen_loop bs headers dt fd data) = None →
  Forall (λ l, ¬ line_raises headers dt l) fd.
Proof.
  revert data. induction fd as [|line fd IH]; intros data; [constructor|].
  simpl. destruct (process_line headers dt line) as [|info|e] eqn:El.
  - intros Hr. constructor; [|by eapply IH]. intros [e He]. congruence.
  - destruct (Nat.leb _ _); simpl; intros Hr;
      (constructor; [|by eapply IH]); intros [e He]; congruence.
  - done.
Qed.

(** X3.  [generate_content] yields as many blocks as its rows need at
    [BLOCK_SIZE] rows a block, rounded up; on a run without an exception
    that is the number of matching lines over [BLOCK_SIZE], rounded up. *)
Theorem block_count_is_ceiling {registry : TransformRegistry}
    (fd : list bytes) (headers : list str) (table : Table) :
  length (yielded (generate_content fd headers table))
  = (total_rows (generate_content fd headers table) + BLOCK_SIZE - 1) / BLOCK_SIZE
  ∧ (raised (generate_content fd headers table) = None →
     length (yielded (generate_content fd headers table))
     = (matching_lines headers fd + BLOCK_SIZE - 1) / BLOCK_SIZE).
Proof.
  assert (well_sized BLOCK_SIZE (yielded (generate_content fd headers table))) as Hw.
  { apply gen_loop_well_sized; [apply BLOCK_SIZE_pos|]. simpl. apply BLOCK_SIZE_pos. }
  pose proof (well_sized_count _ _ BLOCK_SIZE_pos Hw) as Hn.
  split; [exact Hn|]. intros Hr. rewrite Hn.
  unfold matching_lines, generate_content, generate_content_sized in *.
  rewrite gen_loop_rows by done. simpl.
  rewrite rows_count by (by eapply gen_loop_no_raise_inv). done.
Qed.

Section rows_extra.
Context {registry : TransformRegistry}.
Implicit Types (info r : row) (items : list (str * transform)) (dt : gmap str transform).

Lemma apply_transforms_succeeds items info :
  NoDup items.*1 →
  (∀ k f v, (k, f) ∈ items → info !! k = Some v → ∃ v', f v = Ok v') →
  ∃ r, apply_transforms items info = Ok r.
Proof.
  revert info. induction items as [|[k f] items IH]; intros info Hnd Hok; simpl.
  - by eexists.
  - apply NoDup_cons in Hnd as [Hk Hnd].
    destruct (info !! k) as [v|] eqn:Hv.
    + destruct (Hok k f v ltac:(by left) Hv) as [v' ->].
      apply IH; [done|]. intros k' f' w Hin Hw.
      assert (k ≠ k') as Hne.
      { intros ->. apply Hk. apply list_elem_of_fmap. by exists (k', f'). }
      rewrite lookup_insert_ne in Hw by done. apply (Hok k' f' w); [by right|done].
    + apply IH; [done|]. intros k' f' w Hin Hw. apply (Hok k' f' w); [by right|done].
Qed.

Lemma apply_transforms_ok_iff dt info :
  (∃ r, apply_transforms (map_to_list dt) info = Ok r)
  ↔ ∀ k f v, dt !! k = Some f → info !! k = Some v → ∃ v', f v = Ok v'.
Proof.
  split.
  - intros [r Hr] k f v Hk Hv.
    pose proof (apply_transforms_map _ _ _ k Hr) as Hm. rewrite Hk, Hv in Hm.
    destruct Hm as (v' & ? & _). eauto.
  - intros Hok. apply apply_transforms_succeeds; [apply NoDup_fst_map_to_list|].
    intros k f v Hin%elem_of_map_to_list. by apply Hok.
Qed.

Lemma apply_transforms_untouched dt info :
  (∀ k, is_Some (dt !! k) → info !! k = None) →
  apply_transforms (map_to_list dt) info = Ok info.
Proof.
  intros Hdis.
  destruct (proj2 (apply_transforms_ok_iff dt info)) as [r Hr].
  { intros k f v Hk Hv. rewrite (Hdis k) in Hv by eauto. done. }
  rewrite Hr. f_equal. apply map_eq. intros k.
  pose proof (apply_transforms_map _ _ _ k Hr) as Hm.
  destruct (dt !! k) as [f|] eqn:Hk; [|done].
  rewrite (Hdis k) in * by eauto. done.
Qed.

Lemma apply_transforms_dom dt info r k :
  apply_transforms (map_to_list dt) info = Ok r →
  is_Some (r !! k) ↔ is_Some (info !! k).
Proof.
  intros Hr. pose proof (apply_transforms_map _ _ _ k Hr) as Hm.
  destruct (dt !! k); [|by rewrite Hm].
  destruct (info !! k).
  - destruct Hm as (v' & _ & ->). split; eauto.
  - by rewrite Hm.
Qed.

Lemma size_list_to_set_length (l : list str) :
  size (list_to_set (C:=gset str) l) ≤ length l.
Proof.
  induction l as [|x l IH]; [done|].
  change (list_to_set (C:=gset str) (x :: l))
    with ({[x]} ∪ list_to_set (C:=gset str) l).
  rewrite size_union_alt, size_singleton. simpl.
  assert (size (list_to_set (C:=gset str) l ∖ {[x]}) ≤ size (list_to_set (C:=gset str) l)).
  { apply subseteq_size. by intros y [Hy _]%elem_of_difference. }
  lia.
Qed.

End rows_extra.

(** X4.  The keys of an emitted row are the header names, no more and no
    fewer: a transform neither adds nor removes a key.  The row has at
    most as many entries as there are headers, and exactly as many when no
    header name comes twice.  A column without a registered transform
    holds what the row built from the line held for it. *)
Theorem emitted_row_keys {registry : TransformRegistry}
    (headers : list str) (table : Table) (line : bytes) (info : row) :
  line_row headers (data_transf_of (name table)) line = Some info →
  dom info = list_to_set headers
  ∧ size info ≤ length headers
  ∧ (NoDup headers → size info = length headers)
  ∧ ∃ s_line, fields_of line = Ok s_line
      ∧ ∀ k, registered_transform (name table) k = None →
             info !! k = make_info headers s_line !! k.
Proof.
  intros (s_line & Hf & Hlen & Happ)%line_row_inv.
  assert (dom info = list_to_set (C:=gset str) headers) as Hdom.
  { apply set_eq. intros k. rewrite elem_of_dom, elem_of_list_to_set.
    rewrite (apply_transforms_dom _ _ _ k Happ). by apply make_info_is_Some. }
  split; [done|]. split; [|split].
  - rewrite <-size_dom, Hdom. apply size_list_to_set_length.
  - intros Hnd. rewrite <-size_dom, Hdom. by apply size_list_to_set.
  - exists s_line. split; [done|]. intros k Hk.
    pose proof (apply_transforms_map _ _ _ k Happ) as Hm.
    by rewrite data_transf_of_lookup, Hk in Hm.
Qed.

(** X5.  For a line with the header's field count, a row is emitted exactly
    when every registered transform whose column is a key of the row
    succeeds on the value built from the line for that column, whatever
    the order the transforms are taken in; otherwise the loop body
    raises. *)
Theorem row_emitted_iff_transforms_succeed {registry : TransformRegistry}
    (headers : list str) (table : Table) (line : bytes) (s_line : list str) :
  fields_of line = Ok s_line →
  length s_line = length headers →
  (is_Some (line_row headers (data_transf_of (name table)) line)
   ↔ ∀ C f v, registered_transform (name table) C = Some f →
              make_info headers s_line !! C = Some v → ∃ v', f v = Ok v')
  ∧ (line_row headers (data_transf_of (name table)) line = None
     ↔ line_raises headers (data_transf_of (name table)) line).
Proof.
  intros Hf Hlen. unfold line_row, line_raises, process_line. rewrite Hf.
  rewrite decide_False by (intros Hne; done).
  pose proof (apply_transforms_ok_iff (data_transf_of (name table))
                (make_info headers s_line)) as Hiff.
  setoid_rewrite data_transf_of_lookup in Hiff.
  destruct (apply_transforms _ _) as [r|e] eqn:Hr.
  - split.
    + split; [intros _; apply Hiff; eauto|eauto].
    + split; [done|intros [e He]; done].
  - split.
    + split; [by intros [? ?]|]. intros Hok%Hiff. by destruct Hok.
    + split; [eauto|done].
Qed.

(** X6.  The transforms that [generate_content] collects for a table (lines
    57-60) are those of the columns the registry lists under the table's
    name with a ['transform'] key: a table that is not in the registry, a
    column that is not listed, or a column listed with a type only, gets
    none. *)
Theorem transforms_come_from_registry {registry : TransformRegistry}
    (table_name column : str) (f : transform) :
  data_transf_of table_name !! column = Some f
  ↔ ∃ table_map col_info,
      DB_TRANSFORM !! table_name = Some table_map
      ∧ table_map !! column = Some col_info
      ∧ conf_transform col_info = Some f.
Proof.
  rewrite data_transf_of_lookup. unfold registered_transform. split.
  - destruct (DB_TRANSFORM !! table_name) as [table_map|]; [|done].
    destruct (table_map !! column) as [col_info|] eqn:Hc; [|done]. eauto.
  - intros (table_map & col_info & -> & -> & ->). done.
Qed.

Section strings_extra.
Implicit Types (s t : str) (c sep : N).

Lemma strip_spaces s : Forall (λ c, isspace c = true) s → strip s = [].
Proof. intros Hs. unfold strip. by rewrite rstrip_spaces. Qed.

Lemma rstrip_cons_space c s :
  isspace c = true → lstrip (rstrip (c :: s)) = lstrip (rstrip s).
Proof.
  intros Hc. simpl. destruct (rstrip s) as [|y t]; simpl; by rewrite Hc.
Qed.

Lemma strip_app_spaces_l ws s :
  Forall (λ c, isspace c = true) ws → strip (ws ++ s) = strip s.
Proof.
  unfold strip. induction 1 as [|c ws Hc _ IH]; [done|].
  change ((c :: ws) ++ s) with (c :: (ws ++ s)). by rewrite rstrip_cons_space.
Qed.

Lemma count_char_strip c s : count_char c (strip s) ≤ count_char c s.
Proof.
  unfold strip. pose proof (count_char_lstrip c (rstrip s)).
  pose proof (count_char_rstrip c s). lia.
Qed.

Lemma strip_leading_tab ws body :
  Forall (λ c, isspace c = true) ws →
  length (split TAB (strip (ws ++ TAB :: body)))
  < length (split TAB (ws ++ TAB :: body)).
Proof.
  intros Hws.
  replace (ws ++ TAB :: body) with ((ws ++ [TAB]) ++ body) by (by rewrite <-app_assoc).
  rewrite strip_app_spaces_l by (apply Forall_app; split; [done|by constructor]).
  rewrite !length_split, !count_char_app, count_char_cons.
  rewrite decide_True by done. pose proof (count_char_strip TAB body).
  unfold count_char at 3. simpl. lia.
Qed.

Lemma rstrip_id s c :
  last s = Some c → isspace c = false → rstrip s = s.
Proof.
  induction s as [|x s IH]; [done|]. intros Hl Hc. simpl.
  destruct s as [|y s].
  - simpl in *. simplify_eq. by rewrite Hc.
  - rewrite last_cons_cons in Hl. rewrite IH by done. done.
Qed.

Lemma lstrip_id s c :
  head s = Some c → isspace c = false → lstrip s = s.
Proof. destruct s; intros [= ->] Hc; simpl. by rewrite Hc. Qed.

Lemma strip_line s eol c1 c2 :
  head s = Some c1 → isspace c1 = false →
  last s = Some c2 → isspace c2 = false →
  Forall (λ c, isspace c = true) eol →
  strip (s ++ eol) = s.
Proof.
  intros Hh Hc1 Hl Hc2 Heol. unfold strip.
  rewrite rstrip_app_spaces by done.
  rewrite (rstrip_id s c2) by done. by apply (lstrip_id s c1).
Qed.

Lemma split_no_sep sep s : sep ∉ s → split sep s = [s].
Proof.
  induction s as [|c s IH]; [done|]. intros [Hne Hs]%not_elem_of_cons. simpl.
  destruct (N.eqb_spec c sep) as [->|_]; [done|]. by rewrite IH.
Qed.

Lemma split_app_sep sep f s :
  sep ∉ f → split sep (f ++ sep :: s) = f :: split sep s.
Proof.
  induction f as [|c f IH]; simpl.
  - intros _. by rewrite N.eqb_refl.
  - intros [Hne Hs]%not_elem_of_cons.
    destruct (N.eqb_spec c sep) as [->|_]; [done|]. by rewrite IH.
Qed.

Lemma split_join_fields fields :
  fields ≠ [] → Forall (λ f, TAB ∉ f) fields →
  split TAB (join_fields fields) = fields.
Proof.
  intros Hne Hf. induction Hf as [|f fs Hf Hfs IH]; [done|].
  destruct fs as [|f2 fs].
  - simpl. by apply split_no_sep.
  - change (join_fields (f :: f2 :: fs)) with (f ++ TAB :: join_fields (f2 :: fs)).
    rewrite split_app_sep by done. by rewrite IH.
Qed.
End strings_extra.

(** X7.  A line of whitespace only (an empty line, a lone newline) splits
    into one empty field.  It is dropped when the header has any number of
    columns but one; under a one-column header without a registered
    transform it is emitted as a row holding the empty string. *)
Theorem blank_line_is_one_empty_field {registry : TransformRegistry}
    (headers : list str) (table : Table) (line : bytes) (text : str) :
  decode_utf8 line = Some text →
  Forall (λ c, isspace c = true) text →
  fields_of line = Ok [[]]
  ∧ (length headers ≠ 1 →
     process_line headers (data_transf_of (name table)) line = Skipped)
  ∧ (∀ h, headers = [h] → registered_transform (name table) h = None →
     process_line headers (data_transf_of (name table)) line
     = Row {[ h := VStr [] ]}).
Proof.
  intros Hdec Hsp.
  assert (fields_of line = Ok [[]]) as Hf.
  { unfold fields_of, decode. rewrite Hdec. by rewrite strip_spaces. }
  split; [done|]. split.
  - intros Hlen. eapply process_line_skipped; [done|]. simpl. lia.
  - intros h -> Hh. unfold process_line. rewrite Hf. simpl.
    rewrite apply_transforms_untouched; [done|].
    intros k Hk. unfold make_info, py_dict. simpl.
    apply lookup_insert_None. split; [done|]. intros ->.
    rewrite data_transf_of_lookup, Hh in Hk. by destruct Hk.
Qed.

(** X8.  A data line that begins with a tab (its first field is empty,
    possibly after other whitespace) and that has, as written, the
    header's number of fields, loses the leading field to [strip] and is
    dropped. *)
Theorem leading_empty_field_dropped {registry : TransformRegistry}
    (fd1 fd2 : list bytes) (line : bytes) (ws body : str)
    (headers : list str) (table : Table) :
  decode_utf8 line = Some (ws ++ TAB :: body) →
  Forall (λ c, isspace c = true) ws →
  length (split TAB (ws ++ TAB :: body)) = length headers →
  (∃ s_line, fields_of line = Ok s_line ∧ length s_line < length headers)
  ∧ generate_content (fd1 ++ line :: fd2) headers table
    = generate_content (fd1 ++ fd2) headers table.
Proof.
  intros Hdec Hws Hcount.
  pose proof (strip_leading_tab ws body Hws) as Hlt. rewrite Hcount in Hlt.
  assert (fields_of line = Ok (split TAB (strip (ws ++ TAB :: body)))) as Hf.
  { unfold fields_of, decode. by rewrite Hdec. }
  split; [eauto|].
  unfold generate_content, generate_content_sized. apply gen_loop_skip.
  eapply process_line_skipped; [done|lia].
Qed.

(** X9.  A line made of fields joined by tabs and closed by its terminator
    is split back into those very fields, provided no field holds a tab
    and the line neither begins nor ends (before the terminator) with
    whitespace; fields in the middle may be empty.  With the header's
    field count and no transform registered for the headers, the emitted
    row is [dict(zip(headers, fields))] with [\N] read as [None]. *)
Theorem well_formed_line_round_trip {registry : TransformRegistry}
    (headers : list str) (table : Table) (line : bytes)
    (fields : list str) (eol : str) (c1 c2 : N) :
  decode_utf8 line = Some (join_fields fields ++ eol) →
  Forall (λ c, isspace c = true) eol →
  Forall (λ f, TAB ∉ f) fields →
  head (join_fields fields) = Some c1 → isspace c1 = false →
  last (join_fields fields) = Some c2 → isspace c2 = false →
  fields_of line = Ok fields
  ∧ (length fields = length headers →
     (∀ h, h ∈ headers → registered_transform (name table) h = None) →
     line_row headers (data_transf_of (name table)) line
     = Some (py_dict (zip headers (null_to_none <$> fields)))).
Proof.
  intros Hdec Heol Hf Hh Hc1 Hl Hc2.
  assert (fields ≠ []) as Hne by (by intros ->).
  assert (fields_of line = Ok fields) as Hfields.
  { unfold fields_of, decode. rewrite Hdec.
    rewrite (strip_line _ _ c1 c2) by done. by rewrite split_join_fields. }
  split; [done|]. intros Hlen Hreg.
  unfold line_row, process_line. rewrite Hfields.
  rewrite decide_False by (intros Hn; done).
  rewrite apply_transforms_untouched; [done|].
  intros k Hk. destruct (decide (k ∈ headers)) as [Hin|Hnin].
  - rewrite data_transf_of_lookup, (Hreg k Hin) in Hk. by destruct Hk.
  - by apply make_info_lookup_None.
Qed.

Section importers_extra.
Context {registry : TransformRegistry} {DB : Type} {engine : Engine DB}.
Implicit Types (w : world DB) (gen : run (list row)) (vars : locals).

Lemma for_blocks_insert_failure table pre blk rest vars w e :
  inserts_succeed table pre (w_db w) →
  (execute table blk (insert_all table pre (w_db w))).2 = Raise e →
  for_blocks table (prepend pre (Yield blk rest)) vars w
  = (World (execute table blk (insert_all table pre (w_db w))).1 (w_log w)
           (w_metadata w),
     (Locals blk (count vars + length (concat pre)), Some e)).
Proof.
  revert vars w. induction pre as [|b pre IH]; intros vars w Hpre Hblk.
  - simpl in *. unfold on_db.
    destruct (execute table blk (w_db w)) as [db [[]|e']]; simpl in *; [done|].
    rewrite Nat.add_0_r. by simplify_eq.
  - simpl in *. unfold on_db. destruct Hpre as [Hb Hpre].
    destruct (execute table b (w_db w)) as [db [[]|e']]; [|done]. simpl in *.
    rewrite IH by done. simpl. do 3 f_equal. rewrite length_app. lia.
Qed.

Lemma split_not_nil sep s : split sep s ≠ [].
Proof.
  intros Hs. apply (f_equal length) in Hs. by rewrite length_split in Hs.
Qed.

(** What a set-up that went through has done. *)
Lemma import_file_setup_inv f w w1 gz_file headers table :
  import_file_setup f w = (w1, Ok (gz_file, headers, table)) →
  ∃ text db1,
    connect (w_db w) = (db1, Ok tt)
    ∧ decode (readline (gz_lines f)).1 = Ok text
    ∧ headers = split TAB (strip text)
    ∧ gz_file = (readline (gz_lines f)).2
    ∧ w_metadata w !! table_name_of (basename (gz_path f)) = None
    ∧ ([] ∉ headers)
    ∧ table = mkTable (table_name_of (basename (gz_path f)))
                (registry_column (table_name_of (basename (gz_path f)))
                 <$> first_occurrences headers)
    ∧ create_all table db1 = (w_db w1, Ok tt)
    ∧ w_log w1 = w_log w ++ [LogBegin (gz_path f);
                             LogBuildingTable (basename (gz_path f))]
    ∧ w_metadata w1
      = <[table_name_of (basename (gz_path f)) := table]> (w_metadata w).
Proof.
  unfold import_file_setup. unfold bind at 1 2 3 4. unfold lift, logging at 1, on_db.
  simpl. destruct (connect (w_db w)) as [db1 [[]|e]]; [|done].
  destruct (readline (gz_lines f)) as [first rest]. simpl.
  destruct (decode first) as [text|e]; [|done].
  rewrite build_table_outcome. simpl.
  destruct (w_metadata w !! table_name_of (basename (gz_path f))) as [t|] eqn:Hmd.
  { destruct (split TAB (strip text)) eqn:Hs; [|done].
    by apply split_not_nil in Hs. }
  destruct (decide ([] ∈ split TAB (strip text))) as [Hin|Hnin].
  { by rewrite bool_decide_eq_true_2. }
  rewrite bool_decide_eq_false_2 by done. unfold bind. simpl.
  destruct (create_all _ db1) as [db2 [[]|e]] eqn:Hc; [|done].
  unfold ret. intros [= <- <- <- <-]. exists text, db1. simpl.
  rewrite <-app_assoc. by repeat split.
Qed.

Lemma import_entries_app bs entries1 entries2 w :
  import_entries bs (entries1 ++ entries2) w
  = match import_entries bs entries1 w with
    | (w1, Ok _) => import_entries bs entries2 w1
    | (w1, Raise e) => (w1, Raise e)
    end.
Proof.
  revert w. induction entries1 as [|entry entries1 IH]; intros w; [done|].
  simpl. destruct (entry_isfile entry); simpl; unfold bind.
  - destruct (import_file_sized bs _ w) as [w1 [[]|e]]; [apply IH|done].
  - unfold logging. simpl. apply IH.
Qed.

Lemma import_entries_skip_all bs entries w :
  Forall (λ entry, entry_isfile entry = false) entries →
  import_entries bs entries w
  = (World (w_db w)
           (w_log w ++ ((λ entry, LogSkipping (entry_name entry)) <$> entries))
           (w_metadata w),
     Ok tt).
Proof.
  intros Hall. revert w. induction Hall as [|entry entries Hf _ IH]; intros w.
  - simpl. unfold ret. rewrite app_nil_r. by destruct w.
  - simpl. rewrite Hf. simpl. unfold bind, logging. simpl. rewrite IH. simpl.
    by rewrite <-app_assoc.
Qed.

End importers_extra.

Lemma basename_sep p n : 47%N ∉ n → basename (p ++ 47%N :: n) = n.
Proof.
  intros Hn. induction p as [|c p IH]; simpl.
  - rewrite bool_decide_eq_false_2 by done. done.
  - rewrite bool_decide_eq_true_2; [done|]. apply elem_of_app. right. by left.
Qed.

Lemma basename_plain n : 47%N ∉ n → basename n = n.
Proof.
  destruct n as [|c n]; [done|]. intros [Hc Hn]%not_elem_of_cons. simpl.
  rewrite bool_decide_eq_false_2 by done.
  destruct (N.eqb_spec c 47); [congruence|done].
Qed.

Lemma basename_path_join dir_name n :
  47%N ∉ n → basename (path_join dir_name n) = n.
Proof.
  intros Hn. unfold path_join.
  assert (match n with 47%N :: _ => False | _ => True end) as Hhd.
  { destruct n as [|c n]; [done|]. apply not_elem_of_cons in Hn as [Hc _].
    destruct c as [|p]; [done|]. repeat (destruct p as [p|p|]; try done). }
  assert (basename
            match last dir_name with
            | Some 47%N => dir_name ++ n
            | Some _ => dir_name ++ [47%N] ++ n
            | None => n
            end = n) as Hb.
  { destruct (last dir_name) as [c|] eqn:Hl.
    - assert (basename (dir_name ++ [47%N] ++ n) = n) by (by apply basename_sep).
      destruct (decide (c = 47%N)) as [->|Hne].
      + apply last_Some in Hl as [d ->]. rewrite <-app_assoc. by apply basename_sep.
      + destruct c as [|p]; [done|]. repeat (destruct p as [p|p|]; try done).
    - by apply basename_plain. }
  destruct n as [|c n]; [done|].
  destruct c as [|p]; [done|]. repeat (destruct p as [p|p|]; try done).
Qed.

Lemma dots_to_underscores_no_dot s : 46%N ∉ dots_to_underscores s.
Proof.
  unfold dots_to_underscores. intros [c [Hc _]]%list_elem_of_fmap.
  destruct (N.eqb_spec c 46); [done|congruence].
Qed.

Lemma no_dot_no_tsv_ext s : 46%N ∉ s → contains TSV_EXT s = false.
Proof.
  intros Hs. destruct (contains TSV_EXT s) eqn:Hc; [|done]. destruct Hs.
  induction s as [|c s IH]; [done|].
  assert (contains TSV_EXT (c :: s)
          = starts_with TSV_EXT (c :: s) || contains TSV_EXT s) as Hu by done.
  rewrite Hu in Hc. apply orb_true_iff in Hc as [Hst|Hc].
  - apply starts_with_inv in Hst as [t Ht]. vm_compute in Ht.
    injection Ht as -> _. by left.
  - right. by apply IH.
Qed.

(** X10.  The derived table name never holds a dot, whatever the file name. *)
Theorem table_name_has_no_dot (fn : str) : 46%N ∉ table_name_of fn.
Proof. rewrite table_name_of_eq. apply dots_to_underscores_no_dot. Qed.

Lemma dots_to_underscores_idemp s :
  dots_to_underscores (dots_to_underscores s) = dots_to_underscores s.
Proof.
  unfold dots_to_underscores. rewrite <-list_fmap_compose.
  apply list_fmap_ext. intros _ c _. simpl.
  destruct (c =? 46)%N eqn:E; [done|by rewrite E].
Qed.

(** X11.  Two file names that differ only in dots against underscores before
    the suffix give the same table name: [title.basics.tsv.gz] and
    [title_basics.tsv.gz] are loaded into one table. *)
Theorem table_names_collide (base : str) :
  contains TSV_EXT base = false →
  table_name_of (dots_to_underscores base ++ TSV_EXT)
  = table_name_of (base ++ TSV_EXT).
Proof.
  intros Hb.
  pose proof (no_dot_no_tsv_ext _ (dots_to_underscores_no_dot base)) as Hd.
  apply not_contains_not_occurs in Hb, Hd.
  rewrite <-(app_nil_r TSV_EXT), !table_name_of_occurrence by done.
  by rewrite dots_to_underscores_idemp.
Qed.

Lemma title_basics_collision :
  table_name_of (dots_to_underscores (u "title.basics") ++ TSV_EXT)
  = table_name_of (u "title.basics" ++ TSV_EXT).
Proof. apply table_names_collide. vm_compute. reflexivity. Defined.

Section importers_theorems.
Context {registry : TransformRegistry} {DB : Type} {engine : Engine DB}.

Lemma glob_tsv_app dir_name l1 l2 :
  glob_tsv dir_name (l1 ++ l2) = glob_tsv dir_name l1 ++ glob_tsv dir_name l2.
Proof. unfold glob_tsv. by rewrite filter_app, fmap_app. Qed.

Lemma glob_tsv_isfile dir_name listing :
  Forall (λ entry, entry_isfile entry = false) listing →
  Forall (λ entry, entry_isfile entry = false) (glob_tsv dir_name listing).
Proof.
  intros Hall. unfold glob_tsv. apply Forall_fmap.
  apply Forall_forall. intros entry [_ Hin]%list_elem_of_filter.
  rewrite Forall_forall in Hall. simpl. by apply Hall.
Qed.
End importers_theorems.

(** X12.  When the set-up of a file goes through, the generator does not
    raise and every insert succeeds on the database the inserts before it
    left, [import_file] logs the begin line, the table line and the
    summary line and nothing else, the count in the summary is the number
    of data lines with the header's field count, and the database is what
    inserting the blocks one after the other leaves. *)
Theorem import_file_clean_run {registry : TransformRegistry} {DB : Type}
    {engine : Engine DB} (f : gz_file) (w w1 : world DB)
    (gz_file : list bytes) (headers : list str) (table : Table) :
  import_file_setup f w = (w1, Ok (gz_file, headers, table)) →
  raised (generate_content gz_file headers table) = None →
  inserts_succeed table (yielded (generate_content gz_file headers table))
                  (w_db w1) →
  import_file f w
  = (World (insert_all table (yielded (generate_content gz_file headers table))
                       (w_db w1))
           (w_log w ++ [LogBegin (gz_path f);
                        LogBuildingTable (basename (gz_path f));
                        LogEnd (gz_path f) (matching_lines headers gz_file)])
           (w_metadata w1),
     Ok tt).
Proof.
  intros Hsetup Hr Hins.
  assert (total_rows (generate_content gz_file headers table)
          = matching_lines headers gz_file) as Hcount.
  { unfold total_rows, matching_lines, generate_content, generate_content_sized in *.
    rewrite gen_loop_rows by done. simpl. apply rows_count.
    by eapply gen_loop_no_raise_inv. }
  destruct (import_file_after_setup BLOCK_SIZE _ _ _ _ _ _ Hsetup)
    as (w2 & vars & err & Hloop & Himp).
  fold (generate_content gz_file headers table) in Hloop.
  rewrite for_blocks_all_inserted in Hloop by done. rewrite Hr in Hloop.
  injection Hloop as <- <- <-.
  unfold import_file. rewrite Himp. simpl. rewrite Hcount.
  apply import_file_setup_inv in Hsetup
    as (text & db1 & _ & _ & _ & _ & _ & _ & _ & _ & -> & _).
  by rewrite <-app_assoc.
Qed.

Lemma import_people_clean :
  import_file (registry:=no_registry)
    (GzFile (u "d/people.tsv.gz")
       [tsv_line ["id"; "name"]; tsv_line ["1"; "Alice"]; tsv_line ["x"];
        tsv_line ["2"; "\N"]]) empty_world
  = (World (insert_all plain_people_table
              (yielded (generate_content (registry:=no_registry)
                          [tsv_line ["1"; "Alice"]; tsv_line ["x"];
                           tsv_line ["2"; "\N"]] people_headers
                          plain_people_table))
              (w_db (World ([] : mem_db)
                       [LogBegin (u "d/people.tsv.gz");
                        LogBuildingTable (u "people.tsv.gz")]
                       {[ u "people" := plain_people_table ]})))
           (w_log empty_world
            ++ [LogBegin (u "d/people.tsv.gz");
                LogBuildingTable (basename (u "d/people.tsv.gz"));
                LogEnd (u "d/people.tsv.gz")
                  (matching_lines people_headers
                     [tsv_line ["1"; "Alice"]; tsv_line ["x"];
                      tsv_line ["2"; "\N"]])])
           (w_metadata (World ([] : mem_db)
                          [LogBegin (u "d/people.tsv.gz");
                           LogBuildingTable (u "people.tsv.gz")]
                          {[ u "people" := plain_people_table ]})),
     Ok tt).
Proof.
  apply (import_file_clean_run (registry:=no_registry)
           (GzFile (u "d/people.tsv.gz")
              [tsv_line ["id"; "name"]; tsv_line ["1"; "Alice"]; tsv_line ["x"];
               tsv_line ["2"; "\N"]]) empty_world
           (World [] [LogBegin (u "d/people.tsv.gz");
                      LogBuildingTable (u "people.tsv.gz")]
                  {[ u "people" := plain_people_table ]})).
  - vm_compute. reflexivity.
  - vm_compute. reflexivity.
  - vm_compute. split; [reflexivity|exact I].
Defined.

(** X13.  When the insert of a block raises on the database that the
    inserts of the blocks before it left, the [try] statement logs the
    number of rows of that very block with the exception, leaves in
    [count] the rows of the blocks before it, returns normally, and issues
    no further insert: what the generator would have yielded next plays no
    part. *)
Theorem insert_failure_is_reported {DB : Type} {engine : Engine DB}
    (table : Table) (pre : list (list row)) (blk : list row)
    (rest : run (list row)) (w : world DB) (e : exn) :
  inserts_succeed table pre (w_db w) →
  (execute table blk (insert_all table pre (w_db w))).2 = Raise e →
  try_blocks table (prepend pre (Yield blk rest)) (Locals [] 0) w
  = (World (execute table blk (insert_all table pre (w_db w))).1
           (w_log w ++ [LogEntriesLost (length blk) e])
           (w_metadata w),
     Ok (Locals blk (length (concat pre)))).
Proof.
  intros Hpre Hblk. unfold try_blocks.
  rewrite (for_blocks_insert_failure _ _ _ _ _ _ e) by done.
  unfold bind, logging, ret. done.
Qed.

Lemma null_id_block_reported :
  try_blocks people_table
    (prepend [[ ({[ u "id" := VStr (u "1") ]} : row) ]]
       (Yield [ ({[ u "id" := VNone ]} : row) ]
          (Yield [ ({[ u "id" := VStr (u "3") ]} : row) ] Stop)))
    (Locals [] 0) empty_world
  = (World (execute people_table [ ({[ u "id" := VNone ]} : row) ]
              (insert_all people_table
                 [[ ({[ u "id" := VStr (u "1") ]} : row) ]] (w_db empty_world))).1
           (w_log empty_world
            ++ [LogEntriesLost (length [ ({[ u "id" := VNone ]} : row) ])
                  (DBAPIError "NOT NULL constraint failed")])
           (w_metadata empty_world),
     Ok (Locals [ ({[ u "id" := VNone ]} : row) ]
           (length (concat [[ ({[ u "id" := VStr (u "1") ]} : row) ]])))).
Proof.
  apply insert_failure_is_reported.
  - vm_compute. split; [reflexivity|exact I].
  - vm_compute. reflexivity.
Defined.

(** X14.  On a file that opens and decompresses, [import_file] raises in
    five ways only:
    [engine.connect()] raised; the first line of the file is not UTF-8;
    [sqlalchemy.Table] refused the table because [metadata] has one of
    that name already; [sqlalchemy.Table] refused a column with a blank
    name; or [metadata.create_all] raised.  In each case the log ends
    before any summary line, the database is as the failing call left it,
    and [metadata] is unchanged unless it was [create_all] that raised, in
    which case the new table stays in it. *)
Theorem import_file_raise_cases {registry : TransformRegistry} {DB : Type}
    {engine : Engine DB} (f : gz_file) (w w' : world DB) (e : exn) :
  import_file f w = (w', Raise e) →
  let fn := gz_path f in
  let first := (readline (gz_lines f)).1 in
  let table_name := table_name_of (basename fn) in
  (connect (w_db w) = (w_db w', Raise e)
   ∧ w_log w' = w_log w ++ [LogBegin fn]
   ∧ w_metadata w' = w_metadata w)
  ∨ (∃ db1, connect (w_db w) = (db1, Ok tt)
            ∧ decode first = Raise e
            ∧ w' = World db1 (w_log w ++ [LogBegin fn]) (w_metadata w))
  ∨ (∃ db1 text,
       connect (w_db w) = (db1, Ok tt)
       ∧ decode first = Ok text
       ∧ is_Some (w_metadata w !! table_name)
       ∧ e = already_defined
       ∧ w' = World db1 (w_log w ++ [LogBegin fn; LogBuildingTable (basename fn)])
                    (w_metadata w))
  ∨ (∃ db1 text,
       connect (w_db w) = (db1, Ok tt)
       ∧ decode first = Ok text
       ∧ w_metadata w !! table_name = None
       ∧ [] ∈ split TAB (strip text)
       ∧ e = blank_column_name
       ∧ w' = World db1 (w_log w ++ [LogBegin fn; LogBuildingTable (basename fn)])
                    (w_metadata w))
  ∨ (∃ db1 text table,
       connect (w_db w) = (db1, Ok tt)
       ∧ decode first = Ok text
       ∧ w_metadata w !! table_name = None
       ∧ ([] ∉ split TAB (strip text))
       ∧ table = mkTable table_name
                   (registry_column table_name
                    <$> first_occurrences (split TAB (strip text)))
       ∧ create_all table db1 = (w_db w', Raise e)
       ∧ w_log w' = w_log w ++ [LogBegin fn; LogBuildingTable (basename fn)]
       ∧ w_metadata w' = <[table_name := table]> (w_metadata w)).
Proof.
  intros Himp%import_file_raises. revert Himp.
  unfold import_file_setup. unfold bind at 1 2 3 4. unfold lift, logging at 1, on_db.
  simpl. destruct (connect (w_db w)) as [db1 [[]|e1]].
  - destruct (readline (gz_lines f)) as [first rest]. simpl.
    destruct (decode first) as [text|e2]; simpl.
    + rewrite build_table_outcome. simpl.
      destruct (w_metadata w !! table_name_of (basename (gz_path f)))
        as [t|] eqn:Hmd.
      { destruct (split TAB (strip text)) eqn:Hs; [by apply split_not_nil in Hs|].
        intros [= <- <-]. right. right. left. exists db1, text.
        rewrite <-app_assoc. by repeat split. }
      destruct (decide ([] ∈ split TAB (strip text))) as [Hin|Hnin].
      { rewrite bool_decide_eq_true_2 by done. intros [= <- <-].
        right. right. right. left. exists db1, text.
        rewrite <-app_assoc. by repeat split. }
      rewrite bool_decide_eq_false_2 by done. unfold bind. simpl.
      destruct (create_all _ db1) as [db2 [[]|e3]] eqn:Hc; [done|].
      intros [= <- <-]. do 4 right. eexists db1, text, _. simpl.
      rewrite <-app_assoc. by repeat split.
    + intros [= <- <-]. right. left. by exists db1.
  - intros [= <- <-]. by left.
Qed.

Lemma broken_header_raises :
  let fn := gz_path (GzFile (u "d/broken.tsv.gz") [bad_utf8_line]) in
  let first := (readline (gz_lines (GzFile (u "d/broken.tsv.gz") [bad_utf8_line]))).1 in
  let table_name := table_name_of (basename fn) in
  let w := empty_world in
  let w' := World ([] : mem_db) [LogBegin (u "d/broken.tsv.gz")] ∅ in
  let e := UnicodeDecodeError in
  (connect (w_db w) = (w_db w', Raise e)
   ∧ w_log w' = w_log w ++ [LogBegin fn]
   ∧ w_metadata w' = w_metadata w)
  ∨ (∃ db1, connect (w_db w) = (db1, Ok tt)
            ∧ decode first = Raise e
            ∧ w' = World db1 (w_log w ++ [LogBegin fn]) (w_metadata w))
  ∨ (∃ db1 text,
       connect (w_db w) = (db1, Ok tt)
       ∧ decode first = Ok text
       ∧ is_Some (w_metadata w !! table_name)
       ∧ e = already_defined
       ∧ w' = World db1 (w_log w ++ [LogBegin fn; LogBuildingTable (basename fn)])
                    (w_metadata w))
  ∨ (∃ db1 text,
       connect (w_db w) = (db1, Ok tt)
       ∧ decode first = Ok text
       ∧ w_metadata w !! table_name = None
       ∧ [] ∈ split TAB (strip text)
       ∧ e = blank_column_name
       ∧ w' = World db1 (w_log w ++ [LogBegin fn; LogBuildingTable (basename fn)])
                    (w_metadata w))
  ∨ (∃ db1 text table,
       connect (w_db w) = (db1, Ok tt)
       ∧ decode first = Ok text
       ∧ w_metadata w !! table_name = None
       ∧ ([] ∉ split TAB (strip text))
       ∧ table = mkTable table_name
                   (registry_column (registry:=no_registry) table_name
                    <$> first_occurrences (split TAB (strip text)))
       ∧ create_all table db1 = (w_db w', Raise e)
       ∧ w_log w' = w_log w ++ [LogBegin fn; LogBuildingTable (basename fn)]
       ∧ w_metadata w' = <[table_name := table]> (w_metadata w)).
Proof.
  apply (import_file_raise_cases (registry:=no_registry)
           (GzFile (u "d/broken.tsv.gz") [bad_utf8_line]) empty_world).
  vm_compute. reflexivity.
Defined.

(** X15.  [import_dir] takes the entries in listing order: importing a
    listing that is one listing followed by another is importing the first
    and then, from the world it left, the second; if the first raises the
    second is not begun. *)
Theorem import_dir_app {registry : TransformRegistry} {DB : Type}
    {engine : Engine DB} (dir_name : str) (listing1 listing2 : list dir_entry)
    (w : world DB) :
  import_dir dir_name (listing1 ++ listing2) w
  = match import_dir dir_name listing1 w with
    | (w1, Ok _) => import_dir dir_name listing2 w1
    | (w1, Raise e) => (w1, Raise e)
    end.
Proof.
  unfold import_dir, import_dir_sized. rewrite glob_tsv_app.
  apply import_entries_app.
Qed.

(** X16.  Over a directory whose entries are not regular files,
    [import_dir] touches nothing in the database and nothing in
    [metadata], logs one 'skipping' line for each entry the pattern
    matches, in order, and returns normally. *)
Theorem import_dir_skips_non_files {registry : TransformRegistry} {DB : Type}
    {engine : Engine DB} (dir_name : str) (listing : list dir_entry)
    (w : world DB) :
  Forall (λ entry, entry_isfile entry = false) listing →
  import_dir dir_name listing w
  = (World (w_db w)
           (w_log w ++ ((λ entry, LogSkipping (entry_name entry))
                        <$> glob_tsv dir_name listing))
           (w_metadata w),
     Ok tt).
Proof.
  intros Hall. unfold import_dir, import_dir_sized.
  apply import_entries_skip_all. by apply glob_tsv_isfile.
Qed.

Lemma directories_are_skipped :
  import_dir (registry:=no_registry) (u "d")
    [DirEntry (u "old.tsv.gz") false []; DirEntry (u "notes.txt") false []]
    empty_world
  = (World (w_db empty_world)
       (w_log empty_world
        ++ ((λ entry, LogSkipping (entry_name entry))
            <$> glob_tsv (u "d")
                  [DirEntry (u "old.tsv.gz") false [];
                   DirEntry (u "notes.txt") false []]))
       (w_metadata empty_world),
     Ok tt).
Proof.
  apply (import_dir_skips_non_files (registry:=no_registry)).
  repeat constructor.
Defined.

(** X17.  When the set-up of a file found in a directory goes through,
    [metadata] had no table of the file's table name and no field of the
    first line is empty.  The table is named after the file name alone,
    not the directory, and is now in [metadata] under that name; it has
    one column for each distinct field of the first line, in the order of
    first occurrence, typed from the registry or as [UnicodeText], hence
    exactly the header names in order when no name is repeated; there is
    at least one header; and what is left for the generator is the file
    without its first line. *)
Theorem import_file_table {registry : TransformRegistry} {DB : Type}
    {engine : Engine DB} (dir_name file_name : str) (lines : list bytes)
    (w w1 : world DB) (gz_file : list bytes) (headers : list str)
    (table : Table) :
  47%N ∉ file_name →
  import_file_setup (GzFile (path_join dir_name file_name) lines) w
  = (w1, Ok (gz_file, headers, table)) →
  name table = table_name_of file_name
  ∧ columns table
    = registry_column (table_name_of file_name) <$> first_occurrences headers
  ∧ (NoDup headers → col_name <$> columns table = headers)
  ∧ fields_of (readline lines).1 = Ok headers
  ∧ gz_file = (readline lines).2
  ∧ headers ≠ []
  ∧ Forall (λ header, header ≠ []) headers
  ∧ w_metadata w !! table_name_of file_name = None
  ∧ w_metadata w1 = <[table_name_of file_name := table]> (w_metadata w).
Proof.
  intros Hn (text & db1 & _ & Hdec & -> & -> & Hmd & Hblank & -> & _ & _ & Hmd1)
    %import_file_setup_inv.
  simpl in *. rewrite basename_path_join in * by done.
  split; [done|]. split; [done|]. repeat split; try done.
  - intros Hnd. rewrite first_occurrences_NoDup by done.
    rewrite <-list_fmap_compose. apply list_fmap_id.
  - unfold fields_of. by rewrite Hdec.
  - apply split_not_nil.
  - apply Forall_forall. by intros header Hin ->.
Qed.

Lemma people_file_table :
  name people_table = table_name_of (u "people.tsv.gz")
  ∧ columns people_table
    = registry_column (registry:=people_registry)
        (table_name_of (u "people.tsv.gz"))
      <$> first_occurrences people_headers
  ∧ (NoDup people_headers → col_name <$> columns people_table = people_headers)
  ∧ fields_of (readline [tsv_line ["id"; "name"]; tsv_line ["1"; "Alice"]]).1
    = Ok people_headers
  ∧ [tsv_line ["1"; "Alice"]]
    = (readline [tsv_line ["id"; "name"]; tsv_line ["1"; "Alice"]]).2
  ∧ people_headers ≠ []
  ∧ Forall (λ header, header ≠ []) people_headers
  ∧ w_metadata empty_world !! table_name_of (u "people.tsv.gz") = None
  ∧ w_metadata (World ([] : mem_db)
                  [LogBegin (u "data/s3/people.tsv.gz");
                   LogBuildingTable (u "people.tsv.gz")]
                  {[ u "people" := people_table ]})
    = <[table_name_of (u "people.tsv.gz") := people_table]>
        (w_metadata empty_world).
Proof.
  apply (import_file_table (registry:=people_registry) (u "data/s3")
           (u "people.tsv.gz")
           [tsv_line ["id"; "name"]; tsv_line ["1"; "Alice"]]
           empty_world
           (World [] [LogBegin (u "data/s3/people.tsv.gz");
                      LogBuildingTable (u "people.tsv.gz")]
                  {[ u "people" := people_table ]})
           [tsv_line ["1"; "Alice"]] people_headers people_table).
  - vm_compute. intros Hin. repeat (apply elem_of_cons in Hin as [Hin|Hin]; [discriminate|]).
    by apply elem_of_nil in Hin.
  - vm_compute. reflexivity.
Defined.

(** X18.  An empty file (no line at all) is not imported: [readline]
    gives [b''], the header is the single empty name, and
    [sqlalchemy.Table] raises, for the blank column name or, when
    [metadata] has a table of that name already, for the name.  The
    exception leaves [import_file]: nothing is created or inserted, no
    summary line is logged, and [metadata] is unchanged. *)
Theorem import_empty_file {registry : TransformRegistry} {DB : Type}
    {engine : Engine DB} (fn : str) (w : world DB) (db1 : DB) :
  connect (w_db w) = (db1, Ok tt) →
  import_file (GzFile fn []) w
  = (World db1 (w_log w ++ [LogBegin fn; LogBuildingTable (basename fn)])
           (w_metadata w),
     Raise match w_metadata w !! table_name_of (basename fn) with
           | Some _ => already_defined
           | None => blank_column_name
           end).
Proof.
  intros Hconn.
  unfold import_file, import_file_sized. unfold bind at 1.
  unfold import_file_setup. unfold bind at 1 2 3 4.
  unfold lift, logging at 1, on_db. simpl. rewrite Hconn. simpl.
  rewrite build_table_outcome. simpl.
  destruct (w_metadata w !! table_name_of (basename fn)); simpl;
    by rewrite <-app_assoc.
Qed.

Lemma import_empty_people :
  import_file (registry:=people_registry) (GzFile (u "d/people.tsv.gz") [])
    empty_world
  = (World [] (w_log empty_world
               ++ [LogBegin (u "d/people.tsv.gz");
                   LogBuildingTable (basename (u "d/people.tsv.gz"))])
           (w_metadata empty_world),
     Raise match w_metadata empty_world
                 !! table_name_of (basename (u "d/people.tsv.gz")) with
           | Some _ => already_defined
           | None => blank_column_name
           end).
Proof.
  apply (import_empty_file (registry:=people_registry) (u "d/people.tsv.gz")
           empty_world []); reflexivity.
Defined.

(** X19.  Driving the generator by [next()], one block at a time, gives the
    run of [generate_content]: the same blocks in the same order and the
    same ending, in at most one call per line of the stream plus two. *)
Theorem next_calls_give_the_run {registry : TransformRegistry}
    (fd : list bytes) (headers : list str) (table : Table) (fuel : nat) :
  length fd + 2 ≤ fuel →
  generate_content fd headers table
  = iterate fuel BLOCK_SIZE headers (data_transf_of (name table)) (AtLoop fd).
Proof.
  intros Hfuel. destruct fuel as [|fuel]; [lia|].
  unfold generate_content, generate_content_sized.
  rewrite (loop_to_yield_run _ _ _ _ _ fuel) by lia. reflexivity.
Qed.

Lemma three_lines_by_next :
  generate_content (registry:=no_registry)
    [tsv_line ["1"; "Alice"]; tsv_line ["x"]; tsv_line ["2"; "\N"]]
    people_headers people_table
  = iterate 5 BLOCK_SIZE people_headers
      (data_transf_of (registry:=no_registry) (name people_table))
      (AtLoop [tsv_line ["1"; "Alice"]; tsv_line ["x"]; tsv_line ["2"; "\N"]]).
Proof.
  apply (next_calls_give_the_run (registry:=no_registry)). simpl. lia.
Defined.

(* witnesses for the generator and row properties *)
Lemma scenario_rows_in_order :
  concat (yielded (generate_content (registry:=no_registry)
                     [tsv_line ["1"; "Alice"]; tsv_line ["2"; "\N"];
                      tsv_line ["bad"; "line"; "extra"]]
                     people_headers people_table))
  = rows_of (registry:=no_registry) people_headers people_table
      [tsv_line ["1"; "Alice"]; tsv_line ["2"; "\N"];
       tsv_line ["bad"; "line"; "extra"]].
Proof.
  apply (rows_in_stream_order (registry:=no_registry)). vm_compute. reflexivity.
Defined.

Lemma bad_line_ends_the_run :
  raised (generate_content (registry:=no_registry)
            ([tsv_line ["1"; "Alice"]] ++ bad_utf8_line :: [tsv_line ["2"; "Bob"]])
            people_headers people_table)
  = Some UnicodeDecodeError
  ∧ generate_content (registry:=no_registry)
      ([tsv_line ["1"; "Alice"]] ++ bad_utf8_line :: [tsv_line ["2"; "Bob"]])
      people_headers people_table
    = generate_content (registry:=no_registry)
        ([tsv_line ["1"; "Alice"]] ++ [bad_utf8_line])
        people_headers people_table
  ∧ concat (yielded (generate_content (registry:=no_registry)
                       ([tsv_line ["1"; "Alice"]] ++ bad_utf8_line
                          :: [tsv_line ["2"; "Bob"]])
                       people_headers people_table))
    = take (BLOCK_SIZE
            * (length (rows_of (registry:=no_registry) people_headers people_table
                         [tsv_line ["1"; "Alice"]]) / BLOCK_SIZE))
           (rows_of (registry:=no_registry) people_headers people_table
              [tsv_line ["1"; "Alice"]]).
Proof.
  apply (generator_stops_at_first_raise (registry:=no_registry)).
  - repeat constructor. intros [e He]. vm_compute in He. discriminate He.
  - vm_compute. reflexivity.
Defined.

Lemma scenario_block_count :
  length (yielded (generate_content (registry:=no_registry)
                     [tsv_line ["1"; "Alice"]; tsv_line ["2"; "\N"]]
                     people_headers people_table))
  = (total_rows (generate_content (registry:=no_registry)
                   [tsv_line ["1"; "Alice"]; tsv_line ["2"; "\N"]]
                   people_headers people_table) + BLOCK_SIZE - 1) / BLOCK_SIZE
  ∧ (raised (generate_content (registry:=no_registry)
               [tsv_line ["1"; "Alice"]; tsv_line ["2"; "\N"]]
               people_headers people_table) = None →
     length (yielded (generate_content (registry:=no_registry)
                        [tsv_line ["1"; "Alice"]; tsv_line ["2"; "\N"]]
                        people_headers people_table))
     = (matching_lines people_headers
          [tsv_line ["1"; "Alice"]; tsv_line ["2"; "\N"]] + BLOCK_SIZE - 1)
       / BLOCK_SIZE).
Proof. apply (block_count_is_ceiling (registry:=no_registry)). Defined.

Lemma people_row_keys :
  dom ({[ u "id" := VInt 8; u "adult" := VBool false ]} : row)
  = list_to_set [u "id"; u "adult"]
  ∧ size ({[ u "id" := VInt 8; u "adult" := VBool false ]} : row)
    ≤ length [u "id"; u "adult"]
  ∧ (NoDup [u "id"; u "adult"] →
     size ({[ u "id" := VInt 8; u "adult" := VBool false ]} : row)
     = length [u "id"; u "adult"])
  ∧ ∃ s_line, fields_of (tsv_line ["8"; "\N"]) = Ok s_line
      ∧ ∀ k, registered_transform (registry:=people_registry)
               (name people_table) k = None →
             ({[ u "id" := VInt 8; u "adult" := VBool false ]} : row) !! k
             = make_info [u "id"; u "adult"] s_line !! k.
Proof.
  apply (emitted_row_keys (registry:=people_registry) [u "id"; u "adult"]
           people_table (tsv_line ["8"; "\N"])).
  vm_compute. reflexivity.
Defined.

Lemma people_row_emitted :
  (is_Some (line_row [u "id"; u "adult"]
              (data_transf_of (registry:=people_registry) (name people_table))
              (tsv_line ["8"; "\N"]))
   ↔ ∀ C f v, registered_transform (registry:=people_registry)
                (name people_table) C = Some f →
              make_info [u "id"; u "adult"] [u "8"; u "\N"] !! C = Some v →
              ∃ v', f v = Ok v')
  ∧ (line_row [u "id"; u "adult"]
       (data_transf_of (registry:=people_registry) (name people_table))
       (tsv_line ["8"; "\N"]) = None
     ↔ line_raises [u "id"; u "adult"]
         (data_transf_of (registry:=people_registry) (name people_table))
         (tsv_line ["8"; "\N"])).
Proof.
  apply (row_emitted_iff_transforms_succeed (registry:=people_registry)).
  - vm_compute. reflexivity.
  - reflexivity.
Defined.

Lemma people_id_transform :
  data_transf_of (registry:=people_registry) (u "people") !! u "id" = Some to_int
  ↔ ∃ table_map col_info,
      DB_TRANSFORM (TransformRegistry:=people_registry) !! u "people"
      = Some table_map
      ∧ table_map !! u "id" = Some col_info
      ∧ conf_transform col_info = Some to_int.
Proof. apply (transforms_come_from_registry (registry:=people_registry)). Defined.

Lemma newline_only_line :
  fields_of [nl_byte] = Ok [[]]
  ∧ (length people_headers ≠ 1 →
     process_line people_headers
       (data_transf_of (registry:=no_registry) (name people_table)) [nl_byte]
     = Skipped)
  ∧ (∀ h, people_headers = [h] →
     registered_transform (registry:=no_registry) (name people_table) h = None →
     process_line people_headers
       (data_transf_of (registry:=no_registry) (name people_table)) [nl_byte]
     = Row {[ h := VStr [] ]}).
Proof.
  apply (blank_line_is_one_empty_field (registry:=no_registry) people_headers
           people_table [nl_byte] [10%N]).
  - vm_compute. reflexivity.
  - repeat constructor.
Defined.

Lemma leading_tab_line_dropped :
  (∃ s_line, fields_of (tsv_line [""; "Bob"]) = Ok s_line
             ∧ length s_line < length people_headers)
  ∧ generate_content (registry:=no_registry)
      ([tsv_line ["1"; "Alice"]] ++ tsv_line [""; "Bob"] :: [])
      people_headers people_table
    = generate_content (registry:=no_registry)
        ([tsv_line ["1"; "Alice"]] ++ []) people_headers people_table.
Proof.
  apply (leading_empty_field_dropped (registry:=no_registry)
           [tsv_line ["1"; "Alice"]] [] (tsv_line [""; "Bob"]) [] (u "Bob" ++ [10%N])).
  - vm_compute. reflexivity.
  - constructor.
  - vm_compute. reflexivity.
Defined.

Lemma three_field_line_round_trip :
  fields_of (tsv_line ["1"; ""; "x y"]) = Ok [u "1"; []; u "x y"]
  ∧ (length [u "1"; []; u "x y"] = length [u "id"; u "mid"; u "name"] →
     (∀ h, h ∈ [u "id"; u "mid"; u "name"] →
           registered_transform (registry:=no_registry) (name people_table) h
           = None) →
     line_row [u "id"; u "mid"; u "name"]
       (data_transf_of (registry:=no_registry) (name people_table))
       (tsv_line ["1"; ""; "x y"])
     = Some (py_dict (zip [u "id"; u "mid"; u "name"]
                          (null_to_none <$> [u "1"; []; u "x y"])))).
Proof.
  apply (well_formed_line_round_trip (registry:=no_registry)
           [u "id"; u "mid"; u "name"] people_table (tsv_line ["1"; ""; "x y"])
           [u "1"; []; u "x y"] [10%N] 49%N 121%N).
  - vm_compute. reflexivity.
  - repeat constructor.
  - repeat constructor; vm_compute; intros Hin;
      repeat (apply elem_of_cons in Hin as [Hin|Hin]; [discriminate|]);
      by apply elem_of_nil in Hin.
  - vm_compute. reflexivity.
  - reflexivity.
  - vm_compute. reflexivity.
  - reflexivity.
Defined.
